(** * TitleParser: word removal and case-insensitive replace

    A shallow embedding of [flexget/utils/parsers/parser.py] together with
    the parts of Python's [str] and [re] that the class calls
    ([str.split], [str.join], [re.escape], [re.compile] with
    [re.IGNORECASE], [re.sub]), and the properties of the four static
    methods [re_not_in_word], [strip_spaces], [remove_words] and
    [ireplace].

    Text is a list of characters with code points below 256 (Rocq's
    [ascii], read as Latin-1).  The character tables below are the ones
    CPython's Unicode database gives on that range. *)

From Stdlib Require Import Bool List Arith ZArith NArith Lia.
From Stdlib Require Import Strings.Ascii Strings.String.
Import ListNotations.

Open Scope string_scope.
Open Scope list_scope.

(* [length] is the length of a list throughout. *)
Abbreviation length := List.length.

(** A Python [str].  String literals are read as lists of characters. *)
Definition str : Set := list ascii.

Coercion list_ascii_of_string : string >-> list.

(** A list of literals, for vocabularies. *)
Definition strs (l : list string) : list str := map list_ascii_of_string l.

(** Errors are not told apart: [None] stands for a raised exception
    ([re.error], [IndexError] or [OverflowError]). *)
Definition bind {A B : Type} (x : option A) (f : A -> option B) : option B :=
  match x with
  | Some a => f a
  | None => None
  end.

Notation "x <- e ;; k" := (bind e (fun x => k))
  (at level 61, e at next level, right associativity).

(** ** Character tables (code points 0..255) *)

Module Chars.

Definition code (c : ascii) : N := N_of_ascii c.

Definition between (lo hi : N) (c : ascii) : bool :=
  ((lo <=? code c) && (code c <=? hi))%N.

Definition code_is (n : N) (c : ascii) : bool := (code c =? n)%N.

(** [str.isspace] on one character: TAB..CR, FS..US, space, NEL, NBSP. *)
Definition isspace (c : ascii) : bool :=
  between 9 13 c || between 28 32 c || code_is 133 c || code_is 160 c.

(** [str.isalnum] on one character; this is also the class [[^\W_]]
    of a [str] pattern: a word character other than the underscore. *)
Definition isalnum (c : ascii) : bool :=
  between 48 57 c || between 65 90 c || between 97 122 c
  || code_is 170 c || between 178 179 c || code_is 181 c || between 185 186 c
  || between 188 190 c || between 192 214 c || between 216 246 c
  || between 248 255 c.

(** Simple lower-casing, as the regex engine applies it under
    [re.IGNORECASE]. *)
Definition tolower (c : ascii) : ascii :=
  if between 65 90 c || (between 192 222 c && negb (code_is 215 c))
  then ascii_of_N (code c + 32)
  else c.

Definition isdigit (c : ascii) : bool := between 48 57 c.
Definition isoctdigit (c : ascii) : bool := between 48 55 c.
Definition isasciiletter (c : ascii) : bool :=
  between 65 90 c || between 97 122 c.

Definition digit_value (c : ascii) : N := (code c - 48)%N.

Definition backslash : ascii := "\"%char.
Definition space : ascii := " "%char.
Definition tab : ascii := "009"%char.
Definition newline : ascii := "010"%char.

End Chars.

(** ** The [str] methods used by the class *)

Module PyStr.

Import Chars.

(** [text.split()] with no separator: maximal runs of non-whitespace
    characters, in order.  [word] is the run being read (the slice from
    [j] to [i] in CPython's loop). *)
Fixpoint split_from (word : str) (text : str) : list str :=
  match text with
  | [] => match word with [] => [] | _ => [word] end
  | c :: rest =>
      if isspace c
      then match word with
           | [] => split_from [] rest
           | _ => word :: split_from [] rest
           end
      else split_from (word ++ [c]) rest
  end.

Definition split (text : str) : list str := split_from [] text.

(** [sep.join(pieces)]. *)
Fixpoint join (sep : str) (pieces : list str) : str :=
  match pieces with
  | [] => []
  | w :: more =>
      match more with
      | [] => w
      | _ => w ++ sep ++ join sep more
      end
  end.

(** A piece as [split] yields them: not empty and free of whitespace. *)
Definition piece (w : str) : Prop :=
  w <> [] /\ Forall (fun c => isspace c = false) w.

End PyStr.

(** ** The part of [re] that the class uses *)

Module Re.

Import Chars.

(** [re.escape]: the characters of [_special_chars_map] get a backslash
    in front, every other character is kept. *)
Definition special_chars : str :=
  "()[]{}?*+-|^$\.&~# " ++ ["009"; "010"; "013"; "011"; "012"]%char.

Definition is_special (c : ascii) : bool :=
  existsb (Ascii.eqb c) special_chars.

Definition escape_char (c : ascii) : str :=
  if is_special c then [backslash; c] else [c].

Definition escape (pattern : str) : str := flat_map escape_char pattern.

(** Compiled patterns.  Only the syntax that [TitleParser] can produce is
    given a meaning: literal characters, escaped characters, the dot, and
    the two look-around groups of [re_not_in_word]. *)
Inductive node : Set :=
| Literal (c : ascii)      (* a character, plain or escaped *)
| AnyChar                  (* [.]: any character except a newline *)
| NotAfterAlnum            (* [(?<![^\W_])] *)
| NotBeforeAlnum.          (* [(?![^\W_])] *)

Record Pattern : Set := {
  nodes : list node;
  ignorecase : bool
}.

Definition lookbehind_src : str := "(?<![^\W_])".
Definition lookahead_src : str := "(?![^\W_])".

Fixpoint starts_with (prefix text : str) : bool :=
  match prefix, text with
  | [], _ => true
  | _ :: _, [] => false
  | p :: prefix', c :: text' => Ascii.eqb p c && starts_with prefix' text'
  end.

(** Characters with a syntactic role when they are not escaped; outside
    the two look-around groups they are not part of the modelled syntax. *)
Definition is_meta (c : ascii) : bool :=
  existsb (Ascii.eqb c) (list_ascii_of_string "[{()*+?^$|").

(** The parser.  [skip] counts the characters of a look-around group that
    were recognised as a whole and are still to be passed over.  [None] is
    a pattern that does not compile or that is outside the modelled
    syntax. *)
Fixpoint parse (skip : nat) (source : str) : option (list node) :=
  match source with
  | [] => Some []
  | c :: rest =>
      match skip with
      | S k => parse k rest
      | O =>
          if starts_with lookbehind_src source then
            option_map (cons NotAfterAlnum)
                       (parse (length lookbehind_src - 1) rest)
          else if starts_with lookahead_src source then
            option_map (cons NotBeforeAlnum)
                       (parse (length lookahead_src - 1) rest)
          else if Ascii.eqb c backslash then
            match rest with
            | [] => None                       (* bad escape (end of pattern) *)
            | d :: rest' =>
                if isasciiletter d || isdigit d
                then None                      (* class, anchor or numeric escape *)
                else option_map (cons (Literal d)) (parse 0 rest')
            end
          else if Ascii.eqb c "." then option_map (cons AnyChar) (parse 0 rest)
          else if is_meta c then None
          else option_map (cons (Literal c)) (parse 0 rest)
      end
  end.

(** [re.compile(source, re.IGNORECASE)] when [icase] is set. *)
Definition compile (source : str) (icase : bool) : option Pattern :=
  ns <- parse 0 source ;;
  Some {| nodes := ns; ignorecase := icase |}.

Definition char_matches (icase : bool) (p c : ascii) : bool :=
  if icase then Ascii.eqb (tolower c) (tolower p) else Ascii.eqb c p.

(** One attempt at one position: [prev] is the character just before the
    position (if any), [text] what follows.  The result is the text
    matched. *)
Fixpoint match_here (icase : bool) (ns : list node)
         (prev : option ascii) (text : str) : option str :=
  match ns with
  | [] => Some []
  | Literal p :: ns' =>
      match text with
      | c :: text' =>
          if char_matches icase p c
          then option_map (cons c) (match_here icase ns' (Some c) text')
          else None
      | [] => None
      end
  | AnyChar :: ns' =>
      match text with
      | c :: text' =>
          if Ascii.eqb c newline then None
          else option_map (cons c) (match_here icase ns' (Some c) text')
      | [] => None
      end
  | NotAfterAlnum :: ns' =>
      match prev with
      | Some c => if isalnum c then None else match_here icase ns' prev text
      | None => match_here icase ns' prev text
      end
  | NotBeforeAlnum :: ns' =>
      match text with
      | c :: _ => if isalnum c then None else match_here icase ns' prev text
      | [] => match_here icase ns' prev text
      end
  end.

Definition match_pattern (p : Pattern) : option ascii -> str -> option str :=
  match_here (ignorecase p) (nodes p).

(** The character before position [i] of [text]. *)
Definition char_before (text : str) (i : nat) : option ascii :=
  match i with
  | O => None
  | S j => nth_error text j
  end.

(** A match of [p] that starts at position [i] of [text]. *)
Definition match_at (p : Pattern) (text : str) (i : nat) : option str :=
  if Nat.leb i (length text)
  then match_pattern p (char_before text i) (skipn i text)
  else None.


(** *** Replacement templates *)

(** The tokenizer reads a backslash together with the character after
    it; a backslash at the very end is an error. *)
Inductive token : Set :=
| Chr (c : ascii)
| Esc (c : ascii).

Fixpoint tokenize (source : str) : option (list token) :=
  match source with
  | [] => Some []
  | c :: rest =>
      if Ascii.eqb c backslash then
        match rest with
        | [] => None                           (* bad escape (end of pattern) *)
        | d :: rest' => option_map (cons (Esc d)) (tokenize rest')
        end
      else option_map (cons (Chr c)) (tokenize rest)
  end.

(** A parsed template: literal characters and references to the whole
    match.  A pattern of this class has no capturing group, so a reference
    to any group but 0 is an error. *)
Inductive item : Set :=
| Lit (c : ascii)
| WholeMatch.

(** The whitespace that [int] strips from the ends of its argument: the
    ASCII whitespace (TAB..CR and the blank), and NEL and NBSP, which it
    turns into blanks first.  FS..US are whitespace for [str.isspace] but
    not here. *)
Definition int_space (c : ascii) : bool :=
  between 9 13 c || code_is 32 c || code_is 133 c || code_is 160 c.

Fixpoint lstrip (s : str) : str :=
  match s with
  | c :: rest => if int_space c then lstrip rest else s
  | [] => []
  end.

Definition strip (s : str) : str := rev (lstrip (rev (lstrip s))).

Definition drop_sign (s : str) : str :=
  match s with
  | c :: rest => if Ascii.eqb c "+" || Ascii.eqb c "-" then rest else s
  | [] => []
  end.

(** Zeros with single underscores between them. *)
Fixpoint zeros (s : str) : bool :=
  match s with
  | [] => false
  | c :: rest =>
      Ascii.eqb c "0" &&
      match rest with
      | [] => true
      | d :: rest' => if Ascii.eqb d "_" then zeros rest' else zeros rest
      end
  end.

(** [int] refuses a literal of more digits than this (the default of
    [sys.get_int_max_str_digits]); underscores are not counted. *)
Definition int_max_str_digits : nat := 4300.

Definition count_digits (s : str) : nat :=
  length (filter (fun c => isdigit c) s).

(** [\g<name>]: with no named group, the name has to be an integer
    literal that [int] reads as 0. *)
Definition names_group0 (name : str) : bool :=
  let literal := drop_sign (strip name) in
  zeros literal && Nat.leb (count_digits literal) int_max_str_digits.

Definition escapes (c : ascii) : option ascii :=
  if Ascii.eqb c "a" then Some "007"%char
  else if Ascii.eqb c "b" then Some "008"%char
  else if Ascii.eqb c "f" then Some "012"%char
  else if Ascii.eqb c "n" then Some "010"%char
  else if Ascii.eqb c "r" then Some "013"%char
  else if Ascii.eqb c "t" then Some "009"%char
  else if Ascii.eqb c "v" then Some "011"%char
  else if Ascii.eqb c backslash then Some backslash
  else None.

Definition octal2 (d e : ascii) : N := (8 * digit_value d + digit_value e)%N.
Definition octal3 (c d e : ascii) : N :=
  (64 * digit_value c + 8 * digit_value d + digit_value e)%N.

Inductive mode : Set :=
| Text
| GroupName (name : str).

Fixpoint parse_template_from (m : mode) (ts : list token) : option (list item) :=
  match m with
  | GroupName name =>
      match ts with
      | [] => None                             (* missing >, unterminated name *)
      | Chr c :: ts' =>
          if Ascii.eqb c ">" then
            if names_group0 name
            then option_map (cons WholeMatch) (parse_template_from Text ts')
            else None                          (* unknown or invalid group *)
          else parse_template_from (GroupName (name ++ [c])) ts'
      | Esc c :: ts' =>
          parse_template_from (GroupName (name ++ [backslash; c])) ts'
      end
  | Text =>
      match ts with
      | [] => Some []
      | Chr c :: ts' => option_map (cons (Lit c)) (parse_template_from Text ts')
      | Esc c :: ts' =>
          let lit (n : N) (more : option (list item)) :=
            option_map (cons (Lit (ascii_of_N n))) more in
          if Ascii.eqb c "g" then
            match ts' with
            | Chr lt :: ts'' =>
                if Ascii.eqb lt "<"
                then parse_template_from (GroupName []) ts''
                else None                      (* missing < *)
            | _ => None
            end
          else if Ascii.eqb c "0" then
            match ts' with
            | Chr d :: ts'' =>
                if isoctdigit d then
                  match ts'' with
                  | Chr e :: ts''' =>
                      if isoctdigit e
                      then lit (octal2 d e) (parse_template_from Text ts''')
                      else lit (digit_value d) (parse_template_from Text ts'')
                  | _ => lit (digit_value d) (parse_template_from Text ts'')
                  end
                else lit 0%N (parse_template_from Text ts')
            | _ => lit 0%N (parse_template_from Text ts')
            end
          else if isdigit c then
            match ts' with
            | Chr d :: Chr e :: ts''' =>
                if isoctdigit c && isoctdigit d && isoctdigit e then
                  if (255 <? octal3 c d e)%N
                  then None                    (* octal escape out of range *)
                  else lit (octal3 c d e) (parse_template_from Text ts''')
                else None                      (* invalid group reference *)
            | _ => None                        (* invalid group reference *)
            end
          else
            match escapes c with
            | Some e => option_map (cons (Lit e)) (parse_template_from Text ts')
            | None =>
                if isasciiletter c then None   (* bad escape *)
                else option_map (fun more => Lit backslash :: Lit c :: more)
                                (parse_template_from Text ts')
            end
      end
  end.

Definition has_backslash (s : str) : bool := existsb (Ascii.eqb backslash) s.

(** A replacement without a backslash is used as it is; any other is
    handed to the template parser. *)
Definition compile_template (repl : str) : option (list item) :=
  if has_backslash repl
  then ts <- tokenize repl ;; parse_template_from Text ts
  else Some (map Lit repl).

Definition expand (template : list item) (matched : str) : str :=
  flat_map (fun it => match it with Lit c => [c] | WholeMatch => matched end)
           template.

(** *** Substitution *)

(** The loop condition of the substitution: [count] 0 is no limit, and
    [n] replacements have been made. *)
Definition may_replace (count : Z) (n : nat) : bool :=
  ((count =? 0) || (Z.of_nat n <? count))%Z.

(** The scan of [re.sub], character by character.  At a position where
    the pattern matches, the expanded template is emitted and the matched
    characters are passed over ([skip] counts those still to pass); after
    an empty match the scan has to advance, so the next character is
    copied.  The result is the new text and the number of replacements. *)
Fixpoint sub_from (p : Pattern) (template : list item) (count : Z) (n : nat)
         (prev : option ascii) (text : str) (skip : nat) : str * nat :=
  match skip with
  | S k =>
      match text with
      | [] => ([], n)
      | c :: rest => sub_from p template count n (Some c) rest k
      end
  | O =>
      if may_replace count n then
        match match_pattern p prev text with
        | Some matched =>
            let out := expand template matched in
            match text with
            | [] => (out, S n)
            | c :: rest =>
                match matched with
                | [] =>
                    let (o, n') := sub_from p template count (S n) (Some c) rest 0 in
                    (out ++ c :: o, n')
                | _ :: m =>
                    let (o, n') :=
                      sub_from p template count (S n) (Some c) rest (length m) in
                    (out ++ o, n')
                end
            end
        | None =>
            match text with
            | [] => ([], n)
            | c :: rest =>
                let (o, n') := sub_from p template count n (Some c) rest 0 in
                (c :: o, n')
            end
        end
      else (text, n)
  end.

(** [count] is converted to a C [Py_ssize_t] (of a 64-bit build); an
    integer that does not fit raises [OverflowError]. *)
Definition ssize_max : Z := 9223372036854775807.

Definition fits_ssize (n : Z) : bool :=
  ((- ssize_max - 1 <=? n) && (n <=? ssize_max))%Z.

(** [re.subn(pattern, repl, text, count)] and [re.sub]. *)
Definition subn (p : Pattern) (repl text : str) (count : Z) : option (str * nat) :=
  if fits_ssize count then
    template <- compile_template repl ;;
    Some (sub_from p template count 0 None text 0)
  else None.

Definition sub (p : Pattern) (repl text : str) (count : Z) : option str :=
  option_map fst (subn p repl text count).

End Re.

(** ** The class *)

Module TitleParser.

Definition propers : list str :=
  strs ["proper"; "repack"; "rerip"; "real"; "final"].

Definition specials : list str :=
  strs ["special"; "bonus"; "extra"; "omake"; "ova"].

Definition editions : list str :=
  strs ["dc"; "extended"; "uncut"; "remastered"; "unrated"; "theatrical";
        "chrono"; "se"].

Definition codecs : list str :=
  strs ["x264"; "x.264"; "h264"; "h.264"; "XViD"].

Definition cutoffs : list str :=
  strs ["limited"; "xvid"; "h264"; "x264"; "h.264"; "x.264"; "screener";
        "unrated"; "3d"; "extended"; "directors"; "director's"; "multisubs";
        "dubbed"; "subbed"; "multi"]
  ++ specials ++ editions.

Definition remove : list str := strs ["imax"].

Definition sounds : list str := strs ["AC3"; "DD5.1"; "DTS"].

Definition re_not_in_word (regexp : str) : str :=
  "(?<![^\W_])" ++ regexp ++ "(?![^\W_])".

Definition strip_spaces (text : str) : str :=
  PyStr.join " " (PyStr.split text).

(** Values of the keyword arguments when a call leaves them out. *)
Definition ireplace_count_default : Z := 0.
Definition remove_words_not_in_word_default : bool := false.

Definition ireplace (data old new : str) (count : Z) (not_in_word : bool)
  : option str :=
  let old := Re.escape old in
  let old := if not_in_word then re_not_in_word old else old in
  pattern <- Re.compile old true ;;
  Re.sub pattern new data count.

(** The loop of [remove_words] over the vocabulary. *)
Fixpoint remove_each (text : str) (words : list str) (not_in_word : bool)
  : option str :=
  match words with
  | [] => Some text
  | word :: more =>
      text' <- ireplace text word "" ireplace_count_default not_in_word ;;
      remove_each text' more not_in_word
  end.

Definition remove_words (text : str) (words : list str) (not_in_word : bool)
  : option str :=
  text' <- remove_each text words not_in_word ;;
  Some (PyStr.join " " (PyStr.split text')).

(** The calls that leave keyword arguments out. *)
Definition remove_words_2 (text : str) (words : list str) : option str :=
  remove_words text words remove_words_not_in_word_default.


End TitleParser.

(** ** Whitespace canonicalization as the specification words it

    Every run of whitespace becomes one space, and leading and trailing
    whitespace is removed.  These definitions follow the words of the
    specification; [TitleParser.strip_spaces] is compared with them. *)

Module Canonical.

Import Chars.

(** Remove leading whitespace. *)
Fixpoint ltrim (s : str) : str :=
  match s with
  | [] => []
  | c :: rest => if isspace c then ltrim rest else s
  end.

(** Remove trailing whitespace. *)
Fixpoint rtrim (s : str) : str :=
  match s with
  | [] => []
  | c :: rest =>
      match rtrim rest with
      | [] => if isspace c then [] else [c]
      | kept => c :: kept
      end
  end.

(** Replace every maximal run of whitespace by a single space: the last
    character of a run becomes the space, the others are dropped. *)
Fixpoint squeeze (s : str) : str :=
  match s with
  | [] => []
  | c :: rest =>
      if isspace c then
        match rest with
        | [] => [space]
        | d :: _ => if isspace d then squeeze rest else space :: squeeze rest
        end
      else c :: squeeze rest
  end.

Definition canonical (s : str) : str := squeeze (ltrim (rtrim s)).

End Canonical.

(** ** Occurrences of a search term *)

Module Occurrence.

Import Chars.

(** The pattern that [TitleParser.ireplace] compiles for a search term. *)
Definition search_pattern (old : str) (not_in_word : bool) : option Re.Pattern :=
  let old := Re.escape old in
  let old := if not_in_word then TitleParser.re_not_in_word old else old in
  Re.compile old true.

(** The nodes that the two forms of search compile to. *)
Definition plain_nodes (old : str) : list Re.node := map Re.Literal old.

Definition bounded_nodes (old : str) : list Re.node :=
  Re.NotAfterAlnum :: map Re.Literal old ++ [Re.NotBeforeAlnum].

(** The character before the position reached after reading [m]. *)
Definition after (prev : option ascii) (m : str) : option ascii :=
  fold_left (fun _ c => Some c) m prev.

(** The character before position [j] of [text], when [prev] stands
    before the text. *)
Definition before (prev : option ascii) (text : str) (j : nat) : option ascii :=
  match j with
  | O => prev
  | S k => nth_error text k
  end.

(** No character, or one that is neither a letter nor a digit. *)
Definition free (c : option ascii) : bool :=
  match c with
  | Some a => negb (isalnum a)
  | None => true
  end.

(** The pattern of [old] matches at position [i] of [data]. *)
Definition matches_at (data old : str) (not_in_word : bool) (i : nat) : bool :=
  match search_pattern old not_in_word with
  | Some p =>
      match Re.match_at p data i with
      | Some _ => true
      | None => false
      end
  | None => false
  end.

(** The character at a position is missing or is not a letter or digit. *)
Definition not_alnum_at (data : str) (i : option nat) : bool :=
  match i with
  | None => true
  | Some j =>
      match nth_error data j with
      | None => true
      | Some c => negb (isalnum c)
      end
  end.

Definition position_before (i : nat) : option nat :=
  match i with
  | O => None
  | S j => Some j
  end.

(** A word character of the regex engine ([\w]): a letter, a digit or
    the underscore. *)
Definition isword (c : ascii) : bool := isalnum c || Ascii.eqb c "_".

(** The character at a position is missing or is not a word character. *)
Definition not_word_at (data : str) (i : option nat) : bool :=
  match i with
  | None => true
  | Some j =>
      match nth_error data j with
      | None => true
      | Some c => negb (isword c)
      end
  end.

(** A letter or digit stands right before position [i] or right after
    the [n] characters that start there. *)
Definition embedded_at (data : str) (n i : nat) : bool :=
  negb (not_alnum_at data (position_before i))
  || negb (not_alnum_at data (Some (i + n))).

(** All positions of [data], the end included. *)
Definition positions (data : str) : list nat := seq 0 (S (length data)).

(** Wherever [old] occurs in [data], it is embedded. *)
Definition only_embedded (data old : str) : bool :=
  forallb (fun i => negb (matches_at data old false i)
                    || embedded_at data (length old) i)
          (positions data).

(** The replacement is accepted by the template parser. *)
Definition is_template (new : str) : bool :=
  match Re.compile_template new with
  | Some _ => true
  | None => false
  end.


(** Two terms that differ in letter case only. *)
Definition same_letters (a b : str) : Prop := map tolower a = map tolower b.

(** The characters of [data] from position [i] on spell [old], up to
    letter case. *)
Definition spells_at (data old : str) (i : nat) : Prop :=
  i + length old <= length data /\
  same_letters (firstn (length old) (skipn i data)) old.

End Occurrence.

(** ** Shapes of texts and results *)

Module Shape.

Import Chars.

(** After a character that is not whitespace: every whitespace character
    is one plain space that is followed by a character that is not
    whitespace. *)
Fixpoint tidy_after (s : str) : bool :=
  match s with
  | [] => true
  | c :: rest =>
      if isspace c then
        Ascii.eqb c space &&
        match rest with
        | [] => false
        | d :: _ => negb (isspace d) && tidy_after rest
        end
      else tidy_after rest
  end.

(** No whitespace at either end, and between the words only single plain
    spaces. *)
Definition tidy (s : str) : bool :=
  match s with
  | [] => true
  | c :: rest => negb (isspace c) && tidy_after rest
  end.

(** [a] is [b] with some characters left out. *)
Inductive subseq : str -> str -> Prop :=
| subseq_nil : subseq [] []
| subseq_keep (c : ascii) (a b : str) : subseq a b -> subseq (c :: a) (c :: b)
| subseq_drop (c : ascii) (a b : str) : subseq a b -> subseq a (c :: b).

Definition visible (s : str) : str := filter (fun c => negb (isspace c)) s.

(** The pattern of [old] matches at no position of [data]. *)
Definition absent (data old : str) (not_in_word : bool) : bool :=
  forallb (fun i => negb (Occurrence.matches_at data old not_in_word i))
          (Occurrence.positions data).

(** Two vocabularies that differ in letter case only. *)
Definition same_vocabulary (ws1 ws2 : list str) : Prop :=
  Forall2 Occurrence.same_letters ws1 ws2.

Definition is_lowercase (w : str) : bool :=
  forallb (fun c => Ascii.eqb (tolower c) c) w.

(** Every occurrence of [old] in [data] stands alone: wherever the term
    is spelled, no letter or digit is next to it. *)
Definition standalone (data old : str) : bool :=
  forallb (fun i => negb (Occurrence.matches_at data old false i)
                    || Occurrence.matches_at data old true i)
          (Occurrence.positions data).

End Shape.

(** * Properties *)

Import Chars.

(** ** Splitting and joining *)

Section Whitespace.

Import PyStr.

Lemma split_from_pieces (text : str) :
  forall word,
    Forall (fun c => isspace c = false) word ->
    Forall piece (split_from word text).
Proof.
  induction text as [|c rest IH]; intros word Hw; simpl.
  - destruct word; constructor; [split; [discriminate | assumption] | constructor].
  - destruct (isspace c) eqn:Hc.
    + destruct word.
      * apply IH. constructor.
      * constructor; [split; [discriminate | assumption] | apply IH; constructor].
    + apply IH. apply Forall_app. split; [assumption | repeat constructor; assumption].
Qed.

Lemma split_pieces (text : str) : Forall piece (split text).
Proof. apply split_from_pieces. constructor. Qed.

(** Reading on through a run of non-whitespace extends the current word. *)
Lemma split_from_word (w : str) :
  forall word text,
    Forall (fun c => isspace c = false) w ->
    split_from word (w ++ text) = split_from (word ++ w) text.
Proof.
  induction w as [|c w IH]; intros word text Hw; simpl.
  - now rewrite app_nil_r.
  - inversion Hw as [|? ? Hc Hw']; subst. rewrite Hc.
    rewrite IH by assumption. now rewrite <- app_assoc.
Qed.

Lemma split_join (pieces : list str) :
  Forall piece pieces -> split (join " " pieces) = pieces.
Proof.
  unfold split.
  induction pieces as [|w more IH]; intros Hp; simpl.
  - reflexivity.
  - inversion Hp as [|? ? [Hne Hw] Hmore]; subst.
    destruct more as [|w' more'].
    + rewrite <- (app_nil_r w) at 1. rewrite split_from_word by assumption.
      simpl. destruct w; [contradiction | reflexivity].
    + rewrite split_from_word by assumption. simpl app at 1.
      change (list_ascii_of_string " " ++ join " " (w' :: more'))
        with (space :: join " " (w' :: more')).
      simpl split_from at 1. change (isspace space) with true. cbv iota.
      destruct w; [contradiction |].
      f_equal. apply IH. assumption.
Qed.

Lemma split_from_nil (text : str) :
  forall word, split_from word text = [] <-> word = [] /\ forallb isspace text = true.
Proof.
  induction text as [|c rest IH]; intros word; simpl.
  - destruct word; split; intros H; try discriminate; auto.
    destruct H; discriminate.
  - destruct (isspace c) eqn:Hc; simpl.
    + destruct word.
      * apply IH.
      * split; intros H; [discriminate | destruct H; discriminate].
    + rewrite IH. split; intros [H1 H2]; [| discriminate].
      destruct word; discriminate.
Qed.

Lemma join_nil (pieces : list str) :
  Forall piece pieces -> (join " " pieces = [] <-> pieces = []).
Proof.
  intros Hp. split; intros H; [| now subst].
  destruct pieces as [|w more]; [reflexivity | exfalso].
  inversion Hp as [|? ? [Hne _] _]; subst.
  simpl in H. destruct more.
  - contradiction.
  - apply app_eq_nil in H. destruct H. contradiction.
Qed.

End Whitespace.

(** ** [strip_spaces] against the canonical form *)

Section CanonicalForm.

Import PyStr Canonical.

Lemma rtrim_nil (s : str) : rtrim s = [] <-> forallb isspace s = true.
Proof.
  induction s as [|c rest IH]; simpl.
  - tauto.
  - destruct (rtrim rest) eqn:Hr.
    + destruct (isspace c); simpl.
      * tauto.
      * split; discriminate.
    + split; intros H; [discriminate |].
      apply andb_true_iff in H. destruct H as [_ H].
      apply IH in H. discriminate.
Qed.

Lemma rtrim_space (c : ascii) (rest : str) :
  isspace c = true -> ltrim (rtrim (c :: rest)) = ltrim (rtrim rest).
Proof.
  intros Hc. simpl. destruct (rtrim rest) eqn:Hr.
  - now rewrite Hc.
  - simpl. now rewrite Hc.
Qed.

Lemma rtrim_nonspace (c : ascii) (rest : str) :
  isspace c = false -> rtrim (c :: rest) = c :: rtrim rest.
Proof.
  intros Hc. simpl. destruct (rtrim rest); [now rewrite Hc | reflexivity].
Qed.

Lemma ltrim_rtrim_nil (s : str) : ltrim (rtrim s) = [] <-> rtrim s = [].
Proof.
  split; intros H; [| now rewrite H].
  induction s as [|c rest IH]; [reflexivity |].
  destruct (isspace c) eqn:Hc.
  - rewrite rtrim_space in H by assumption.
    apply IH in H. simpl. now rewrite H, Hc.
  - rewrite rtrim_nonspace in H by assumption. simpl in H.
    rewrite Hc in H. discriminate.
Qed.

(** A whitespace character in front of text that does not end up empty
    contributes the one space of its run. *)
Lemma squeeze_space (r : str) :
  forall c, isspace c = true -> ltrim r <> [] ->
            squeeze (c :: r) = space :: squeeze (ltrim r).
Proof.
  induction r as [|d r IH]; intros c Hc Hr.
  - contradiction.
  - change (squeeze (c :: d :: r))
      with (if isspace c
            then if isspace d then squeeze (d :: r) else space :: squeeze (d :: r)
            else c :: squeeze (d :: r)).
    rewrite Hc. simpl ltrim in *.
    destruct (isspace d) eqn:Hd.
    + now apply IH.
    + reflexivity.
Qed.

Lemma join_split_from (text : str) :
  forall word,
    Forall (fun c => isspace c = false) word ->
    join " " (split_from word text) =
    match word with
    | [] => squeeze (ltrim (rtrim text))
    | _ => word ++ squeeze (rtrim text)
    end.
Proof.
  induction text as [|c rest IH]; intros word Hw.
  - simpl. destruct word; simpl; [reflexivity | now rewrite app_nil_r].
  - cbn [split_from]. destruct (isspace c) eqn:Hc.
    + destruct word as [|a word].
      * rewrite IH by constructor. now rewrite rtrim_space.
      * cbn [join]. destruct (split_from [] rest) eqn:Hs.
        -- apply split_from_nil in Hs. destruct Hs as [_ Hs].
           apply rtrim_nil in Hs. simpl rtrim. rewrite Hs, Hc. simpl.
           now rewrite app_nil_r.
        -- rewrite <- Hs. rewrite IH by constructor.
           assert (Hne : rtrim rest <> []).
           { intros E. apply rtrim_nil in E.
             assert (split_from [] rest = []) by (apply split_from_nil; auto).
             congruence. }
           assert (Hl : ltrim (rtrim rest) <> []).
           { intros E. apply ltrim_rtrim_nil in E. contradiction. }
           replace (rtrim (c :: rest)) with (c :: rtrim rest)
             by (simpl; destruct (rtrim rest); [contradiction | reflexivity]).
           rewrite squeeze_space by assumption. reflexivity.
    + rewrite IH by (apply Forall_app; split; [assumption | repeat constructor; assumption]).
      rewrite rtrim_nonspace by assumption.
      assert (Hsq : forall r, squeeze (c :: r) = c :: squeeze r)
        by (intros r; simpl; now rewrite Hc).
      rewrite Hsq.
      destruct word as [|a word].
      * simpl. now rewrite Hc, Hsq.
      * simpl. now rewrite <- app_assoc.
Qed.

End CanonicalForm.

(** ** Escaping and compiling a search term *)

Section Patterns.

Import Re Occurrence.

(** An escaped character is read back as that character, taken
    literally, whatever comes after it. *)
Lemma parse_escape_char (c : ascii) (rest : str) :
  parse 0 (escape_char c ++ rest) = option_map (cons (Literal c)) (parse 0 rest).
Proof.
  destruct c as [[|] [|] [|] [|] [|] [|] [|] [|]]; reflexivity.
Qed.

Lemma parse_escape (old rest : str) :
  parse 0 (escape old ++ rest) = option_map (app (map Literal old)) (parse 0 rest).
Proof.
  unfold escape. induction old as [|c old IH]; simpl.
  - destruct (parse 0 rest); reflexivity.
  - rewrite <- app_assoc, parse_escape_char, IH.
    destruct (parse 0 rest); reflexivity.
Qed.

Lemma search_pattern_plain (old : str) :
  search_pattern old false =
  Some {| nodes := plain_nodes old; ignorecase := true |}.
Proof.
  unfold search_pattern, compile.
  rewrite <- (app_nil_r (escape old)), parse_escape. simpl.
  unfold plain_nodes. now rewrite app_nil_r.
Qed.

Lemma search_pattern_bounded (old : str) :
  search_pattern old true =
  Some {| nodes := bounded_nodes old; ignorecase := true |}.
Proof.
  unfold search_pattern, compile, TitleParser.re_not_in_word.
  change (parse 0 (list_ascii_of_string "(?<![^\W_])"
                   ++ escape old ++ list_ascii_of_string "(?![^\W_])"))
    with (option_map (cons NotAfterAlnum)
            (parse 0 (escape old ++ list_ascii_of_string "(?![^\W_])"))).
  rewrite parse_escape. reflexivity.
Qed.

(** ** Matching a literal term *)

Lemma same_letters_length (a b : str) :
  same_letters a b -> length a = length b.
Proof.
  unfold same_letters. intros H.
  rewrite <- (length_map tolower a), <- (length_map tolower b). now rewrite H.
Qed.

Lemma char_matches_letters (p c : ascii) :
  char_matches true p c = true <-> tolower c = tolower p.
Proof. unfold char_matches. apply Ascii.eqb_eq. Qed.

Lemma match_literals_inv (old : str) :
  forall ns prev text m,
    match_here true (map Literal old ++ ns) prev text = Some m ->
    exists m2,
      m = firstn (length old) text ++ m2 /\
      length old <= length text /\
      same_letters (firstn (length old) text) old /\
      match_here true ns (after prev (firstn (length old) text))
                 (skipn (length old) text) = Some m2.
Proof.
  induction old as [|p old IH]; intros ns prev text m H.
  - exists m. repeat split; auto. simpl. lia.
  - cbn [map app match_here] in H. destruct text as [|c text]; [discriminate |].
    destruct (char_matches true p c) eqn:Hc; [| discriminate].
    destruct (match_here true (map Literal old ++ ns) (Some c) text) as [m'|] eqn:Hm;
      [| discriminate].
    simpl in H. injection H as <-.
    destruct (IH _ _ _ _ Hm) as (m2 & -> & Hlen & Hsame & Hrest).
    exists m2. simpl. repeat split; auto.
    + lia.
    + unfold same_letters in *. simpl. f_equal; [| assumption].
      now apply char_matches_letters.
Qed.

Lemma match_literals_intro (old : str) :
  forall ns prev text,
    length old <= length text ->
    same_letters (firstn (length old) text) old ->
    match_here true (map Literal old ++ ns) prev text =
    option_map (app (firstn (length old) text))
      (match_here true ns (after prev (firstn (length old) text))
                  (skipn (length old) text)).
Proof.
  induction old as [|p old IH]; intros ns prev text Hlen Hsame.
  - simpl. destruct (match_here true ns prev text); reflexivity.
  - destruct text as [|c text]; [simpl in Hlen; lia |].
    unfold same_letters in Hsame. simpl in Hsame. injection Hsame as Hc Hsame.
    cbn [map app match_here length firstn skipn].
    apply char_matches_letters in Hc. rewrite Hc.
    rewrite IH by (simpl in Hlen; auto; lia).
    destruct (match_here true ns _ _); reflexivity.
Qed.

(** The pattern depends on the letters of the term only. *)
Lemma match_literals_casing (old1 : str) :
  forall old2 ns prev text,
    same_letters old1 old2 ->
    match_here true (map Literal old1 ++ ns) prev text =
    match_here true (map Literal old2 ++ ns) prev text.
Proof.
  unfold same_letters.
  induction old1 as [|p old1 IH]; intros [|q old2] ns prev text H;
    try discriminate; [reflexivity |].
  simpl in H. injection H as Hpq H. cbn [map app match_here].
  destruct text as [|c text]; [reflexivity |].
  unfold char_matches. rewrite Hpq.
  now rewrite (IH old2).
Qed.

(** A plain term matches where the text spells it. *)
Lemma match_plain (old : str) (prev : option ascii) (text m : str) :
  match_here true (plain_nodes old) prev text = Some m <->
  m = firstn (length old) text /\
  length old <= length text /\
  same_letters (firstn (length old) text) old.
Proof.
  unfold plain_nodes. rewrite <- (app_nil_r (map Literal old)). split.
  - intros H. apply match_literals_inv in H.
    destruct H as (m2 & -> & Hlen & Hsame & Hrest).
    simpl in Hrest. injection Hrest as <-. now rewrite app_nil_r.
  - intros (-> & Hlen & Hsame).
    rewrite match_literals_intro by assumption. simpl. now rewrite app_nil_r.
Qed.

(** A bounded term matches where the text spells it and the characters
    on both sides, if any, are neither letters nor digits. *)
Lemma match_bounded (old : str) (prev : option ascii) (text m : str) :
  match_here true (bounded_nodes old) prev text = Some m <->
  m = firstn (length old) text /\
  length old <= length text /\
  same_letters (firstn (length old) text) old /\
  free prev = true /\
  free (hd_error (skipn (length old) text)) = true.
Proof.
  unfold bounded_nodes. split.
  - intros H. cbn [match_here] in H.
    assert (Hp : free prev = true /\
                 match_here true (map Literal old ++ [NotBeforeAlnum]) prev text = Some m).
    { destruct prev as [a|]; simpl; [| auto].
      destruct (isalnum a); [discriminate | auto]. }
    destruct Hp as [Hp Hm]. apply match_literals_inv in Hm.
    destruct Hm as (m2 & -> & Hlen & Hsame & Hrest).
    cbn [match_here] in Hrest.
    destruct (skipn (length old) text) as [|d rest]; simpl.
    + injection Hrest as <-. rewrite app_nil_r. auto.
    + destruct (isalnum d); [discriminate |].
      injection Hrest as <-. rewrite app_nil_r. auto.
  - intros (-> & Hlen & Hsame & Hp & Hn).
    cbn [match_here].
    assert (E : match_here true (map Literal old ++ [NotBeforeAlnum]) prev text =
                Some (firstn (length old) text)).
    { rewrite match_literals_intro by assumption. cbn [match_here].
      destruct (skipn (length old) text) as [|d rest]; simpl in *.
      - now rewrite app_nil_r.
      - destruct (isalnum d); [discriminate |]. simpl. now rewrite app_nil_r. }
    destruct prev as [a|]; simpl in Hp; [| assumption].
    destruct (isalnum a); [discriminate | assumption].
Qed.

End Patterns.

(** ** Where a search term matches *)

Section Positions.

Import Re Occurrence.

Lemma found_iff {A : Type} (o : option A) :
  match o with Some _ => true | None => false end = true <-> exists m, o = Some m.
Proof.
  destruct o as [a|]; split; intros H; try reflexivity.
  - now exists a.
  - discriminate.
  - destruct H; discriminate.
Qed.

Lemma free_before (data : str) (i : nat) :
  free (char_before data i) = not_alnum_at data (position_before i).
Proof.
  destruct i as [|j]; simpl; [reflexivity |].
  destruct (nth_error data j); reflexivity.
Qed.

Lemma free_next (data : str) (i k : nat) :
  free (hd_error (skipn k (skipn i data))) = not_alnum_at data (Some (i + k)).
Proof.
  rewrite skipn_skipn, hd_error_skipn, (Nat.add_comm k i). simpl.
  destruct (nth_error data (i + k)); reflexivity.
Qed.

Lemma spells_at_skipn (data old : str) (i : nat) :
  i <= length data ->
  (length old <= length (skipn i data) /\
   same_letters (firstn (length old) (skipn i data)) old) <->
  spells_at data old i.
Proof.
  intros Hi. unfold spells_at. rewrite length_skipn.
  split; intros [H1 H2]; split; auto; lia.
Qed.

Lemma matches_at_plain (data old : str) (i : nat) :
  matches_at data old false i = true <-> spells_at data old i.
Proof.
  unfold matches_at. rewrite search_pattern_plain.
  unfold match_at, match_pattern. cbn [nodes ignorecase].
  destruct (Nat.leb i (length data)) eqn:Hi.
  - apply Nat.leb_le in Hi. rewrite found_iff.
    rewrite <- spells_at_skipn by assumption. split.
    + intros [m Hm]. apply match_plain in Hm. tauto.
    + intros [H1 H2]. eexists. apply match_plain. eauto.
  - apply Nat.leb_gt in Hi. split; [discriminate |].
    intros [H _]. lia.
Qed.

Lemma matches_at_bounded (data old : str) (i : nat) :
  matches_at data old true i = true <->
  spells_at data old i /\
  not_alnum_at data (position_before i) = true /\
  not_alnum_at data (Some (i + length old)) = true.
Proof.
  unfold matches_at. rewrite search_pattern_bounded.
  unfold match_at, match_pattern. cbn [nodes ignorecase].
  destruct (Nat.leb i (length data)) eqn:Hi.
  - apply Nat.leb_le in Hi. rewrite found_iff.
    rewrite <- spells_at_skipn, <- free_before, <- free_next by assumption. split.
    + intros [m Hm]. apply match_bounded in Hm. tauto.
    + intros [[H1 H2] [H3 H4]]. eexists. apply match_bounded. eauto 6.
  - apply Nat.leb_gt in Hi. split; [discriminate |].
    intros [[H _] _]. lia.
Qed.

End Positions.

(** ** The substitution loop *)

Section Substitution.

Import Re Occurrence TitleParser.

Lemma ireplace_search (data old new : str) (count : Z) (flag : bool) :
  ireplace data old new count flag =
  (p <- search_pattern old flag ;; sub p new data count).
Proof. reflexivity. Qed.

(** Two patterns with the same matches give the same substitution. *)
Lemma sub_from_ext (p1 p2 : Pattern) (tpl : list item) (count : Z) :
  (forall prev text, match_pattern p1 prev text = match_pattern p2 prev text) ->
  forall text n prev skip,
    sub_from p1 tpl count n prev text skip = sub_from p2 tpl count n prev text skip.
Proof.
  intros E. induction text as [|c rest IH]; intros n prev [|k]; cbn [sub_from];
    try reflexivity.
  - now rewrite E.
  - rewrite E. destruct (may_replace count n); [| reflexivity].
    destruct (match_pattern p2 prev (c :: rest)) as [[|a m]|]; now rewrite IH.
  - apply IH.
Qed.



(** Where the pattern matches nowhere, nothing is replaced. *)
Lemma sub_from_unmatched (p : Pattern) (tpl : list item) (count : Z) :
  forall text n prev,
    (forall j, j <= length text ->
               match_pattern p (before prev text j) (skipn j text) = None) ->
    sub_from p tpl count n prev text 0 = (text, n).
Proof.
  induction text as [|c rest IH]; intros n prev H; cbn [sub_from].
  - specialize (H 0 (Nat.le_refl _)). simpl in H. rewrite H.
    destruct (may_replace count n); reflexivity.
  - pose proof (H 0 (Nat.le_0_l _)) as H0. simpl in H0. rewrite H0.
    destruct (may_replace count n); [| reflexivity].
    rewrite IH; [reflexivity |].
    intros j Hj. specialize (H (S j)). simpl in H.
    destruct j as [|k]; simpl; apply H; simpl; lia.
Qed.

Lemma expand_plain (new matched : str) : expand (map Lit new) matched = new.
Proof.
  unfold expand. induction new as [|c new IH]; simpl; [reflexivity |].
  now rewrite IH.
Qed.

Lemma compile_template_plain (new : str) :
  has_backslash new = false -> compile_template new = Some (map Lit new).
Proof. intros H. unfold compile_template. now rewrite H. Qed.

Lemma search_pattern_total (old : str) (flag : bool) :
  exists p, search_pattern old flag = Some p.
Proof.
  destruct flag; eexists; [apply search_pattern_bounded | apply search_pattern_plain].
Qed.

End Substitution.

(** ** When [ireplace] returns *)

Section Returns.

Import Re Occurrence TitleParser.

Lemma plain_is_template (new : str) :
  has_backslash new = false -> is_template new = true.
Proof.
  intros H. unfold is_template. now rewrite compile_template_plain.
Qed.

(** With a replacement that is a template and a [count] that fits,
    [ireplace] returns what the substitution loop builds. *)
Lemma ireplace_template (data old new : str) (count : Z) (flag : bool) :
  is_template new = true ->
  fits_ssize count = true ->
  exists p tpl,
    search_pattern old flag = Some p /\
    compile_template new = Some tpl /\
    ireplace data old new count flag =
    Some (fst (sub_from p tpl count 0 None data 0)).
Proof.
  unfold is_template. intros H Hc.
  destruct (search_pattern_total old flag) as [p Hp].
  destruct (compile_template new) as [tpl|] eqn:Ht; [| discriminate].
  exists p, tpl. repeat split; [assumption |].
  rewrite ireplace_search, Hp. unfold sub, subn. cbn [bind].
  now rewrite Hc, Ht.
Qed.

(** The pattern of a term that is not empty does not match the empty
    text; the pattern of the empty term does. *)
Lemma match_empty_text (old : str) (flag : bool) (p : Pattern) :
  search_pattern old flag = Some p ->
  match_pattern p None [] = match old with [] => Some [] | _ => None end.
Proof.
  intros Hp.
  destruct flag;
    [rewrite search_pattern_bounded in Hp | rewrite search_pattern_plain in Hp];
    injection Hp as <-; destruct old; reflexivity.
Qed.

(** On the empty text a term that is not empty matches nowhere. *)
Lemma ireplace_empty_text_term (c : ascii) (old new : str) (count : Z) (flag : bool) :
  is_template new = true ->
  fits_ssize count = true ->
  ireplace [] (c :: old) new count flag = Some [].
Proof.
  intros H Hc.
  destruct (ireplace_template [] (c :: old) new count flag H Hc)
    as (p & tpl & Hp & _ & ->).
  f_equal. cbn [sub_from]. rewrite (match_empty_text _ _ _ Hp).
  destruct (may_replace count 0); reflexivity.
Qed.

(** On the empty text, removing a term gives the empty text. *)
Lemma ireplace_empty_text_removal (old : str) (flag : bool) :
  ireplace [] old [] ireplace_count_default flag = Some [].
Proof.
  destruct (ireplace_template [] old [] ireplace_count_default flag eq_refl eq_refl)
    as (p & tpl & Hp & Ht & ->).
  injection Ht as <-.
  f_equal. cbn [sub_from]. rewrite (match_empty_text _ _ _ Hp).
  destruct old; reflexivity.
Qed.

Lemma remove_each_total (words : list str) :
  forall text flag, exists r, remove_each text words flag = Some r.
Proof.
  induction words as [|w words IH]; intros text flag; cbn [remove_each].
  - now exists text.
  - destruct (ireplace_template text w [] ireplace_count_default flag eq_refl eq_refl)
      as (p & tpl & _ & _ & E).
    change (list_ascii_of_string "") with (@nil ascii). rewrite E. cbn [bind].
    apply IH.
Qed.

Lemma remove_each_empty_text (words : list str) (flag : bool) :
  remove_each [] words flag = Some [].
Proof.
  induction words as [|w words IH]; cbn [remove_each]; [reflexivity |].
  change (list_ascii_of_string "") with (@nil ascii).
  rewrite ireplace_empty_text_removal. exact IH.
Qed.

(** Where [old] matches nowhere in [data], [ireplace] returns [data]. *)
Lemma ireplace_unmatched (data old new : str) (count : Z) (flag : bool) :
  is_template new = true ->
  fits_ssize count = true ->
  (forall i, i <= length data -> matches_at data old flag i = false) ->
  ireplace data old new count flag = Some data.
Proof.
  intros Ht Hc H.
  destruct (ireplace_template data old new count flag Ht Hc)
    as (p & tpl & Hp & _ & ->).
  rewrite sub_from_unmatched; [reflexivity |].
  intros j Hj. specialize (H j Hj). unfold matches_at in H. rewrite Hp in H.
  unfold match_at in H. apply Nat.leb_le in Hj. rewrite Hj in H.
  change (before None data j) with (char_before data j).
  destruct (match_pattern p (char_before data j) (skipn j data));
    [discriminate | reflexivity].
Qed.

End Returns.

(** ** The first occurrence *)

Section FirstOccurrence.

Import Re Occurrence TitleParser.


(** Once the limit is reached the rest of the text is copied. *)
Lemma sub_from_exhausted (p : Pattern) (tpl : list item) (count : Z) (n : nat) :
  may_replace count n = false ->
  forall text prev k, sub_from p tpl count n prev text k = (skipn k text, n).
Proof.
  intros Hn. induction text as [|c rest IH]; intros prev [|k]; cbn [sub_from skipn];
    rewrite ?Hn; try reflexivity.
  apply IH.
Qed.



End FirstOccurrence.

(** * The properties of [TitleParser] *)

Section StripSpaces.

Import PyStr Canonical TitleParser.

(** [split] keeps the characters that are not whitespace, in order. *)
Lemma concat_split_from (text : str) :
  forall word,
    List.concat (split_from word text) =
    word ++ filter (fun c => negb (isspace c)) text.
Proof.
  induction text as [|c rest IH]; intros word; cbn [split_from filter].
  - destruct word; simpl; now rewrite ?app_nil_r.
  - destruct (isspace c) eqn:Hc; cbn [negb].
    + destruct word; cbn [List.concat]; now rewrite IH.
    + rewrite IH. now rewrite <- app_assoc.
Qed.

(** C6. [strip_spaces] turns every run of whitespace into one space and
    removes leading and trailing whitespace: its result is the canonical
    form of the text.  It is the pieces of the text between whitespace
    runs, joined by single spaces: the pieces are not empty, hold no
    whitespace, and together are the non-whitespace characters of the
    text in order.  On ["  The   Matrix\t\n1999  "] the result is
    ["The Matrix 1999"], and on the empty text it is empty. *)
Theorem strip_spaces_canonical :
  (forall text, strip_spaces text = canonical text) /\
  (forall text,
      strip_spaces text = join " " (split text) /\
      Forall piece (split text) /\
      List.concat (split text) = filter (fun c => negb (isspace c)) text) /\
  strip_spaces ("  The   Matrix" ++ [tab; newline] ++ "1999  ") = "The Matrix 1999" /\
  strip_spaces "" = "".
Proof.
  repeat split.
  - intros text. unfold strip_spaces, canonical, split.
    now rewrite join_split_from by constructor.
  - apply split_pieces.
  - apply (concat_split_from text []).
Qed.

(** C7. [strip_spaces] is idempotent. *)
Theorem strip_spaces_idempotent (s : str) :
  strip_spaces (strip_spaces s) = strip_spaces s.
Proof.
  unfold strip_spaces. now rewrite split_join by apply split_pieces.
Qed.

(** C10. [strip_spaces] returns the empty string exactly on the texts
    that hold whitespace only (the empty text among them). *)
Theorem strip_spaces_empty_iff (s : str) :
  strip_spaces s = [] <-> forallb isspace s = true.
Proof.
  unfold strip_spaces. rewrite join_nil by apply split_pieces.
  unfold split. rewrite split_from_nil. tauto.
Qed.

End StripSpaces.

Section Replace.

Import Re Occurrence TitleParser.

(** C1, as the class has it.  A boundary-enforced search for [old]
    matches at position [i] of [data] exactly when the text spells [old]
    there (up to letter case), the character before the position is absent
    or is neither a letter nor a digit, and the character after the
    occurrence is absent or is neither a letter nor a digit.  The
    underscore is not among the excluded neighbours. *)
Theorem boundary_match_sides (data old : str) (i : nat) :
  matches_at data old true i = true <->
  spells_at data old i /\
  not_alnum_at data (position_before i) = true /\
  not_alnum_at data (Some (i + length old)) = true.
Proof. apply matches_at_bounded. Qed.

(** C1 as stated fails: in ["_se_"] the term ["se"] is matched at
    position 1 although an underscore stands on each side of it, and
    [ireplace] removes it. *)
Lemma underscore_is_a_boundary :
  ~ (forall data old i,
        matches_at data old true i = true ->
        not_word_at data (position_before i) = true /\
        not_word_at data (Some (i + length old)) = true) /\
  ireplace "_se_" "se" "" 0 true = Some (list_ascii_of_string "__").
Proof.
  split; [| reflexivity].
  intros H. specialize (H (list_ascii_of_string "_se_") (list_ascii_of_string "se") 1 eq_refl).
  destruct H as [H _]. discriminate H.
Qed.

(** C2, as the class has it.  A call of [remove_words] that leaves the
    flag out does not enforce word boundaries: it is the call with
    [not_in_word=False]. *)
Theorem remove_words_default_flag (text : str) (words : list str) :
  remove_words_2 text words = remove_words text words false.
Proof. reflexivity. Qed.

(** C2 as stated fails: without the flag, ["se"] is removed from inside
    ["Season"]; with [not_in_word=True] it is not. *)
Lemma remove_words_default_not_enforced :
  remove_words_2 "Bleach Season 02" (strs ["se"]) <>
  remove_words "Bleach Season 02" (strs ["se"]) true.
Proof. discriminate. Qed.


(** Without [re.escape] the dot of ["x.264"] would stand for any
    character. *)
Remark unescaped_dot_is_a_wildcard :
  parse 0 "x.264" = Some [Literal "x"; AnyChar; Literal "2"; Literal "6"; Literal "4"].
Proof. reflexivity. Qed.

Lemma only_embedded_unmatched (data old : str) :
  only_embedded data old = true ->
  forall i, i <= length data -> matches_at data old true i = false.
Proof.
  unfold only_embedded, positions. intros H i Hi.
  rewrite forallb_forall in H.
  assert (Hin : In i (seq 0 (S (length data)))) by (apply in_seq; lia).
  specialize (H i Hin).
  destruct (matches_at data old true i) eqn:Hm; [exfalso | reflexivity].
  apply matches_at_bounded in Hm. destruct Hm as (Hs & Hb & Ha).
  apply matches_at_plain in Hs.
  unfold embedded_at in H. rewrite Hs, Hb, Ha in H. discriminate.
Qed.

(** C5.  A term that occurs in the text only next to a letter or a digit
    is not removed when boundaries are enforced: [remove_words] returns
    the text with its whitespace canonicalized.  ["se"] is not removed
    from ["Bleach Season 02"], and removing ["season"] gives
    ["Bleach 02"]. *)
Theorem embedded_token_kept :
  (forall data old,
      only_embedded data old = true ->
      remove_words data [old] true = Some (strip_spaces data)) /\
  remove_words "Bleach Season 02" (strs ["se"]) true
  = Some (list_ascii_of_string "Bleach Season 02") /\
  remove_words "Bleach Season 02" (strs ["season"]) true
  = Some (list_ascii_of_string "Bleach 02").
Proof.
  repeat split.
  intros data old H. unfold remove_words. cbn [remove_each].
  rewrite ireplace_unmatched; try reflexivity.
  now apply only_embedded_unmatched.
Qed.

Lemma embedded_token_kept_witness :
  only_embedded "Bleach Season 02" "se" = true /\
  remove_words "Bleach Season 02" [list_ascii_of_string "se"] true
  = Some (strip_spaces "Bleach Season 02").
Proof.
  split; [reflexivity | apply (proj1 embedded_token_kept); reflexivity].
Defined.

Lemma match_pattern_casing (old1 old2 : str) (flag : bool) (p1 p2 : Pattern) :
  same_letters old1 old2 ->
  search_pattern old1 flag = Some p1 ->
  search_pattern old2 flag = Some p2 ->
  forall prev text, match_pattern p1 prev text = match_pattern p2 prev text.
Proof.
  intros Hs H1 H2 prev text. destruct flag.
  - rewrite search_pattern_bounded in H1, H2.
    injection H1 as <-. injection H2 as <-.
    unfold match_pattern, bounded_nodes. cbn [nodes ignorecase match_here].
    rewrite (match_literals_casing old1 old2) by assumption. reflexivity.
  - rewrite search_pattern_plain in H1, H2.
    injection H1 as <-. injection H2 as <-.
    unfold match_pattern, plain_nodes. cbn [nodes ignorecase].
    rewrite <- (app_nil_r (map Literal old1)), <- (app_nil_r (map Literal old2)).
    now apply match_literals_casing.
Qed.

(** C8.  The letter case of the search term does not matter: two terms
    with the same letters give the same result, in [ireplace] and in
    [remove_words]. *)
Theorem ireplace_any_casing (data old1 old2 new : str) (count : Z) (flag : bool)
        (H : same_letters old1 old2) :
  ireplace data old1 new count flag = ireplace data old2 new count flag /\
  remove_words data [old1] flag = remove_words data [old2] flag.
Proof.
  assert (E : forall text repl c,
             ireplace text old1 repl c flag = ireplace text old2 repl c flag).
  { intros text repl c. rewrite !ireplace_search.
    destruct (search_pattern_total old1 flag) as [p1 H1].
    destruct (search_pattern_total old2 flag) as [p2 H2].
    rewrite H1, H2. cbn [bind]. unfold sub, subn.
    destruct (fits_ssize c); [| reflexivity].
    destruct (compile_template repl) as [tpl|]; [| reflexivity].
    cbn [bind option_map fst]. do 2 f_equal.
    apply sub_from_ext. eapply match_pattern_casing; eassumption. }
  split; [apply E |].
  unfold remove_words. cbn [remove_each]. now rewrite E.
Qed.

Lemma ireplace_any_casing_witness :
  same_letters "PROPER" "proper" /\
  ireplace "Show.Name.PROPER.720p" "PROPER" "" 0 false
  = ireplace "Show.Name.PROPER.720p" "proper" "" 0 false /\
  remove_words "Show.Name.PROPER.720p" [list_ascii_of_string "PROPER"] false
  = remove_words "Show.Name.PROPER.720p" [list_ascii_of_string "proper"] false.
Proof.
  split; [reflexivity |].
  apply (ireplace_any_casing "Show.Name.PROPER.720p" "PROPER" "proper" "" 0 false).
  reflexivity.
Defined.



(** C3, as the class has it.  [re_not_in_word] and [strip_spaces] are
    total.  [ireplace] returns a string whenever the replacement is one
    that the template parser accepts, which every replacement without a
    backslash is, and [count] fits a C [Py_ssize_t]; [remove_words]
    always returns a string.  On the empty text [strip_spaces] and
    [remove_words] return the empty string, and so does [ireplace] for a
    term that is not empty.  With an empty vocabulary [remove_words]
    returns the canonicalized text, for every text:
    [remove_words("  A   B  ", [])] is ["A B"]. *)
Theorem no_error_with_valid_replacement
        (data old new : str) (count : Z) (flag : bool) (words : list str)
        (Hnew : is_template new = true) (Hcount : fits_ssize count = true) :
  (exists r, ireplace data old new count flag = Some r) /\
  (exists r, remove_words data words flag = Some r) /\
  (forall plain, has_backslash plain = false -> is_template plain = true) /\
  strip_spaces "" = "" /\
  remove_words "" words flag = Some (list_ascii_of_string "") /\
  (forall c rest, ireplace "" (c :: rest) new count flag
                  = Some (list_ascii_of_string "")) /\
  (forall text, remove_words text [] flag = Some (strip_spaces text)) /\
  remove_words "  A   B  " [] flag = Some (list_ascii_of_string "A B").
Proof.
  repeat split.
  - destruct (ireplace_template data old new count flag Hnew Hcount)
      as (p & tpl & _ & _ & E).
    eexists. exact E.
  - unfold remove_words.
    destruct (remove_each_total words data flag) as [r E].
    rewrite E. cbn [bind]. eexists. reflexivity.
  - apply plain_is_template.
  - unfold remove_words.
    change (list_ascii_of_string "") with (@nil ascii).
    now rewrite remove_each_empty_text.
  - intros c rest. now apply ireplace_empty_text_term.
Qed.

Lemma no_error_with_valid_replacement_witness :
  is_template "o" = true /\
  fits_ssize 1 = true /\
  exists r, ireplace "banana" "a" "o" 1 false = Some r.
Proof.
  split; [reflexivity |]. split; [reflexivity |].
  apply (no_error_with_valid_replacement "banana" "a" "o" 1 false [] eq_refl eq_refl).
Defined.

(** A group name is read as [int] reads it: blanks, NEL and NBSP around
    the digits are passed over, FS is not, and more than 4300 digits are
    refused. *)
Remark group_name_as_int :
  is_template ("\g<" ++ "160"%char :: " 0 >") = true /\
  is_template ("\g<" ++ "028"%char :: "0>") = false /\
  is_template ("\g<" ++ repeat "0"%char 4300 ++ ">") = true /\
  is_template ("\g<" ++ repeat "0"%char 4301 ++ ">") = false.
Proof. repeat split; vm_compute; reflexivity. Qed.

(** C3 as stated fails.  A replacement that ends in a backslash is
    rejected by the template parser, and a [count] of 2^63 does not fit a
    [Py_ssize_t]: in both cases [ireplace] raises.  On the empty text the
    empty term matches once, so the result is the replacement and not the
    empty string; [re_not_in_word] of the empty pattern is not empty
    either. *)
Lemma replacement_can_raise :
  ireplace "a" "a" "\" 0 false = None /\
  ireplace "a" "a" "b" 9223372036854775808 false = None /\
  ireplace "" "" "x" 0 false = Some (list_ascii_of_string "x") /\
  re_not_in_word "" <> list_ascii_of_string "".
Proof. repeat split. discriminate. Qed.

End Replace.

(** * Further properties *)

(** ** The shape of canonical text *)

Section Tidy.

Import PyStr TitleParser Shape.

Lemma tidy_after_word (w rest : str) :
  Forall (fun c => isspace c = false) w ->
  tidy_after (w ++ rest) = tidy_after rest.
Proof.
  induction 1 as [|c w Hc Hw IH]; [reflexivity |].
  cbn [app tidy_after]. now rewrite Hc.
Qed.

Lemma tidy_word (w rest : str) :
  piece w -> tidy (w ++ rest) = tidy_after rest.
Proof.
  intros [Hne Hw]. destruct w as [|c w]; [contradiction |].
  inversion Hw as [|? ? Hc Hw']; subst.
  cbn [app tidy]. rewrite Hc. cbn [negb andb]. now apply tidy_after_word.
Qed.

Lemma tidy_after_space (s : str) :
  s <> [] -> tidy s = true -> tidy_after (space :: s) = true.
Proof.
  intros Hne Ht. destruct s as [|d s]; [contradiction |].
  cbn [tidy] in Ht. apply andb_true_iff in Ht. destruct Ht as [Hd Hs].
  change (tidy_after (space :: d :: s))
    with (Ascii.eqb space space && (negb (isspace d) && tidy_after (d :: s))).
  rewrite Hd. cbn [tidy_after]. apply negb_true_iff in Hd. now rewrite Hd.
Qed.

Lemma join_pieces_tidy (pieces : list str) :
  Forall piece pieces -> tidy (join " " pieces) = true.
Proof.
  induction 1 as [|w more Hw Hmore IH]; [reflexivity |].
  cbn [join]. destruct more as [|w' more'].
  - rewrite <- (app_nil_r w). now rewrite tidy_word.
  - rewrite tidy_word by assumption.
    change (list_ascii_of_string " " ++ join " " (w' :: more'))
      with (space :: join " " (w' :: more')).
    apply tidy_after_space; [| exact IH].
    intros E. apply join_nil in E; [discriminate | assumption].
Qed.

(** On text that is tidy after the word read so far, splitting and
    joining gives the text back. *)
Lemma join_split_tidy (s : str) :
  forall word,
    Forall (fun c => isspace c = false) word ->
    (match word with [] => tidy s | _ => tidy_after s end) = true ->
    join " " (split_from word s) = word ++ s.
Proof.
  induction s as [|c rest IH]; intros word Hw Ht.
  - destruct word; simpl; now rewrite ?app_nil_r.
  - cbn [split_from]. destruct (isspace c) eqn:Hc.
    + destruct word as [|a word].
      * cbn [tidy] in Ht. rewrite Hc in Ht. discriminate.
      * cbn [tidy_after] in Ht. rewrite Hc in Ht.
        apply andb_true_iff in Ht. destruct Ht as [Hsp Ht].
        apply Ascii.eqb_eq in Hsp. subst c.
        destruct rest as [|d rest']; [discriminate |].
        assert (Hj : join " " (split_from [] (d :: rest')) = d :: rest').
        { apply (IH []); [constructor |].
          cbn [tidy]. apply andb_true_iff in Ht. destruct Ht as [Hd Ht].
          rewrite Hd. cbn [andb]. cbn [tidy_after] in Ht.
          apply negb_true_iff in Hd. now rewrite Hd in Ht. }
        cbn [join]. destruct (split_from [] (d :: rest')) as [|w ws] eqn:Hs.
        -- discriminate Hj.
        -- rewrite Hj. reflexivity.
    + rewrite (IH (word ++ [c])).
      * now rewrite <- app_assoc.
      * apply Forall_app. split; [assumption | repeat constructor; assumption].
      * destruct word as [|a word]; cbn [app].
        -- cbn [tidy] in Ht. rewrite Hc in Ht. exact Ht.
        -- cbn [tidy_after] in Ht. rewrite Hc in Ht. exact Ht.
Qed.

(** X1.  The result of [strip_spaces] is tidy: it has no whitespace at
    either end and between its words only single plain spaces.  The texts
    that [strip_spaces] leaves as they are, are exactly the tidy ones. *)
Theorem strip_spaces_tidy (s : str) :
  tidy (strip_spaces s) = true /\
  (strip_spaces s = s <-> tidy s = true).
Proof.
  assert (Ht : tidy (strip_spaces s) = true)
    by (apply join_pieces_tidy, split_pieces).
  split; [exact Ht |]. split.
  - intros E. now rewrite E in Ht.
  - intros H. apply (join_split_tidy s []); [constructor | exact H].
Qed.

Lemma length_join_split_from (s : str) :
  forall word,
    length (join " " (split_from word s)) <= length word + length s.
Proof.
  induction s as [|c rest IH]; intros word; cbn [split_from].
  - destruct word; simpl; lia.
  - destruct (isspace c).
    + specialize (IH []). destruct word as [|a word].
      * simpl in *. lia.
      * cbn [join]. destruct (split_from [] rest).
        -- simpl. lia.
        -- rewrite !length_app. simpl in *. lia.
    + specialize (IH (word ++ [c])). rewrite length_app in IH. simpl in *. lia.
Qed.

Lemma visible_join_split_from (s : str) :
  forall word,
    Forall (fun c => isspace c = false) word ->
    visible (join " " (split_from word s)) = word ++ visible s.
Proof.
  unfold visible.
  assert (Hid : forall w, Forall (fun c => isspace c = false) w ->
                          filter (fun c => negb (isspace c)) w = w).
  { induction 1 as [|c w Hc Hw IHw]; [reflexivity |].
    cbn [filter]. rewrite Hc. cbn [negb]. now rewrite IHw. }
  induction s as [|c rest IH]; intros word Hw; cbn [split_from filter].
  - destruct word; [reflexivity |]. cbn [join]. rewrite app_nil_r. now apply Hid.
  - destruct (isspace c) eqn:Hc; cbn [negb].
    + destruct word as [|a word]; [now apply (IH []) |].
      cbn [join]. specialize (IH [] (Forall_nil _)). cbn [app] in IH.
      destruct (split_from [] rest) as [|w ws].
      * cbn [join filter] in IH. rewrite <- IH, app_nil_r. now apply Hid.
      * rewrite !filter_app, IH. rewrite (Hid _ Hw). reflexivity.
    + rewrite IH.
      * now rewrite <- app_assoc.
      * apply Forall_app. split; [assumption | repeat constructor; assumption].
Qed.

(** X2.  [strip_spaces] never lengthens a text, and it keeps the
    characters that are not whitespace, all of them and in order. *)
Theorem strip_spaces_keeps_visible (s : str) :
  length (strip_spaces s) <= length s /\
  visible (strip_spaces s) = visible s.
Proof.
  split.
  - apply (length_join_split_from s []).
  - apply (visible_join_split_from s []). constructor.
Qed.

Lemma split_from_separator (a : str) :
  forall word c b,
    isspace c = true ->
    split_from word (a ++ c :: b) = split_from word a ++ split b.
Proof.
  induction a as [|x a IH]; intros word c b Hc; cbn [app split_from].
  - rewrite Hc. destruct word; reflexivity.
  - destruct (isspace x).
    + destruct word; cbn [app]; now rewrite IH.
    + now apply IH.
Qed.

Lemma join_app (sep : str) (l1 l2 : list str) :
  l1 <> [] -> l2 <> [] ->
  join sep (l1 ++ l2) = join sep l1 ++ sep ++ join sep l2.
Proof.
  intros H1 H2. induction l1 as [|w l1 IH]; [contradiction |].
  destruct l1 as [|w' l1].
  - destruct l2; [contradiction | reflexivity].
  - change (join sep ((w :: w' :: l1) ++ l2))
      with (w ++ sep ++ join sep ((w' :: l1) ++ l2)).
    rewrite IH by discriminate.
    change (join sep (w :: w' :: l1)) with (w ++ sep ++ join sep (w' :: l1)).
    now rewrite <- !app_assoc.
Qed.

(** X3.  Canonicalizing two texts put together with a whitespace
    character between them is canonicalizing each and putting a single
    space between the results; when one of them holds only whitespace,
    the result is the other's. *)
Theorem strip_spaces_concat (a b : str) (c : ascii) (Hc : isspace c = true) :
  strip_spaces (a ++ c :: b) =
  match strip_spaces a, strip_spaces b with
  | [], sb => sb
  | sa, [] => sa
  | sa, sb => sa ++ " " ++ sb
  end.
Proof.
  unfold strip_spaces, split. rewrite split_from_separator by assumption.
  fold (split a). fold (split b).
  pose proof (join_nil (split a) (split_pieces a)) as Ha.
  pose proof (join_nil (split b) (split_pieces b)) as Hb.
  destruct (split a) as [|wa la] eqn:Ea.
  - reflexivity.
  - destruct (split b) as [|wb lb] eqn:Eb.
    + rewrite app_nil_r.
      change (join " " []) with (@nil ascii).
      destruct (join " " (wa :: la)); reflexivity.
    + rewrite join_app by discriminate.
      assert (Na : join " " (wa :: la) <> [])
        by (intros E; apply Ha in E; discriminate).
      assert (Nb : join " " (wb :: lb) <> [])
        by (intros E; apply Hb in E; discriminate).
      destruct (join " " (wa :: la)); [contradiction |].
      destruct (join " " (wb :: lb)); [contradiction | reflexivity].
Qed.

Lemma strip_spaces_concat_witness :
  isspace tab = true /\
  strip_spaces ("  The Matrix " ++ tab :: " 1999 ") = "The Matrix 1999".
Proof.
  split; [reflexivity |].
  rewrite (strip_spaces_concat "  The Matrix " " 1999 " tab eq_refl).
  reflexivity.
Defined.

End Tidy.

(** ** What removal keeps *)

Section Removal.

Import Re Occurrence TitleParser Shape.

Lemma subseq_refl (s : str) : subseq s s.
Proof. induction s; constructor; assumption. Qed.

Lemma subseq_trans (a b c : str) : subseq a b -> subseq b c -> subseq a c.
Proof.
  intros Hab Hbc. revert a Hab.
  induction Hbc as [|x b c Hbc IH|x b c Hbc IH]; intros a Hab.
  - assumption.
  - inversion Hab; subst.
    + apply subseq_keep. now apply IH.
    + apply subseq_drop. now apply IH.
  - apply subseq_drop. now apply IH.
Qed.

Lemma subseq_length (a b : str) : subseq a b -> length a <= length b.
Proof. induction 1; simpl; lia. Qed.

Lemma subseq_filter (f : ascii -> bool) (a b : str) :
  subseq a b -> subseq (filter f a) (filter f b).
Proof.
  induction 1 as [|c a b H IH|c a b H IH]; cbn [filter].
  - constructor.
  - destruct (f c); [now apply subseq_keep | assumption].
  - destruct (f c); [now apply subseq_drop | assumption].
Qed.

(** With the empty template the loop only leaves characters out. *)
Lemma sub_from_removal (p : Pattern) (count : Z) :
  forall text n prev skip,
    subseq (fst (sub_from p [] count n prev text skip)) text.
Proof.
  induction text as [|c rest IH]; intros n prev [|k]; cbn [sub_from].
  - destruct (may_replace count n); [| constructor].
    destruct (match_pattern p prev []); constructor.
  - constructor.
  - destruct (may_replace count n); [| apply subseq_refl].
    destruct (match_pattern p prev (c :: rest)) as [[|a m]|].
    + specialize (IH (S n) (Some c) 0).
      destruct (sub_from p [] count (S n) (Some c) rest 0). now apply subseq_keep.
    + specialize (IH (S n) (Some c) (length m)).
      destruct (sub_from p [] count (S n) (Some c) rest (length m)).
      now apply subseq_drop.
    + specialize (IH n (Some c) 0).
      destruct (sub_from p [] count n (Some c) rest 0). now apply subseq_keep.
  - apply subseq_drop, IH.
Qed.

Lemma ireplace_removal (data old r : str) (count : Z) (flag : bool) :
  ireplace data old [] count flag = Some r -> subseq r data.
Proof.
  rewrite ireplace_search.
  destruct (search_pattern old flag) as [p|]; [| discriminate].
  cbn [bind]. unfold sub, subn.
  destruct (fits_ssize count); [| discriminate].
  cbn [compile_template has_backslash existsb map bind option_map].
  intros H. injection H as <-. apply sub_from_removal.
Qed.

(** X4.  Replacing a term by the empty string only leaves characters
    out: the result of [ireplace] is the text with some of its characters
    removed, the others in their order. *)
Theorem ireplace_removal_subseq
        (data old r : str) (count : Z) (flag : bool)
        (H : ireplace data old "" count flag = Some r) :
  subseq r data /\ length r <= length data.
Proof.
  assert (Hs : subseq r data) by (eapply ireplace_removal; exact H).
  split; [exact Hs | now apply subseq_length].
Qed.

Lemma ireplace_removal_subseq_witness :
  ireplace "Bleach Season 02" "season" "" 0 true
  = Some (list_ascii_of_string "Bleach  02") /\
  subseq "Bleach  02" "Bleach Season 02" /\
  length (list_ascii_of_string "Bleach  02")
  <= length (list_ascii_of_string "Bleach Season 02").
Proof.
  split; [reflexivity |].
  apply (ireplace_removal_subseq "Bleach Season 02" "season" "Bleach  02" 0 true).
  reflexivity.
Defined.

Lemma remove_each_removal (words : list str) :
  forall text flag r, remove_each text words flag = Some r -> subseq r text.
Proof.
  induction words as [|w words IH]; intros text flag r H; cbn [remove_each] in H.
  - injection H as <-. apply subseq_refl.
  - change (list_ascii_of_string "") with (@nil ascii) in H.
    destruct (ireplace text w [] ireplace_count_default flag) as [t|] eqn:E;
      [| discriminate].
    cbn [bind] in H. apply IH in H. apply ireplace_removal in E.
    eapply subseq_trans; eassumption.
Qed.

(** X5.  [remove_words] always returns, and its result is tidy (no
    whitespace at the ends, single plain spaces between words), is not
    longer than the text, and holds only characters of the text: its
    non-whitespace characters are non-whitespace characters of the text,
    in their order. *)
Theorem remove_words_result (text : str) (words : list str) (flag : bool) :
  exists r,
    remove_words text words flag = Some r /\
    tidy r = true /\
    length r <= length text /\
    subseq (visible r) (visible text).
Proof.
  unfold remove_words.
  destruct (remove_each_total words text flag) as [t Ht].
  rewrite Ht. cbn [bind]. eexists. split; [reflexivity |].
  apply remove_each_removal in Ht.
  split; [apply join_pieces_tidy, split_pieces |]. split.
  - eapply Nat.le_trans; [apply (length_join_split_from t []) |].
    now apply subseq_length.
  - unfold PyStr.split. rewrite (visible_join_split_from t []) by constructor.
    cbn [app]. now apply subseq_filter.
Qed.

(** ** When [ireplace] raises and when it changes nothing *)

(** X6.  [ireplace] raises exactly when the replacement is not a
    template that [re.sub] accepts or [count] does not fit a
    [Py_ssize_t]; the text, the term and the flag play no part in it. *)
Theorem ireplace_raises_iff (data old new : str) (count : Z) (flag : bool) :
  ireplace data old new count flag = None <->
  is_template new = false \/ fits_ssize count = false.
Proof.
  rewrite ireplace_search.
  destruct (search_pattern_total old flag) as [p ->]. cbn [bind].
  unfold sub, subn, is_template.
  destruct (fits_ssize count); destruct (compile_template new);
    cbn [bind option_map]; split; intros H; auto; try discriminate;
    destruct H; discriminate.
Qed.

(** X7.  With a negative [count] nothing is replaced. *)
Theorem ireplace_negative_count
        (data old new : str) (count : Z) (flag : bool)
        (Hneg : (count < 0)%Z)
        (Hnew : is_template new = true) (Hfit : fits_ssize count = true) :
  ireplace data old new count flag = Some data.
Proof.
  destruct (ireplace_template data old new count flag Hnew Hfit)
    as (p & tpl & _ & _ & ->).
  rewrite sub_from_exhausted; [reflexivity |].
  unfold may_replace. destruct count; try lia. reflexivity.
Qed.

Lemma ireplace_negative_count_witness :
  (-1 < 0)%Z /\ is_template "o" = true /\ fits_ssize (-1) = true /\
  ireplace "banana" "a" "o" (-1) false = Some (list_ascii_of_string "banana").
Proof.
  split; [reflexivity |]. split; [reflexivity |]. split; [reflexivity |].
  apply (ireplace_negative_count "banana" "a" "o" (-1) false);
    reflexivity.
Defined.

Lemma absent_unmatched (data old : str) (flag : bool) :
  absent data old flag = true ->
  forall i, i <= length data -> matches_at data old flag i = false.
Proof.
  unfold absent, positions. intros H i Hi.
  rewrite forallb_forall in H.
  assert (Hin : In i (seq 0 (S (length data)))) by (apply in_seq; lia).
  apply H in Hin. now apply negb_true_iff in Hin.
Qed.

Lemma matches_at_spells (data old : str) (flag : bool) (i : nat) :
  matches_at data old flag i = true -> spells_at data old i.
Proof.
  destruct flag; intros H.
  - now apply matches_at_bounded in H.
  - now apply matches_at_plain in H.
Qed.

(** X8.  A term that occurs nowhere in the text leaves the text as it
    is, whatever the replacement and the count. *)
Theorem absent_term_unchanged
        (data old new : str) (count : Z) (flag : bool)
        (Hnew : is_template new = true) (Hfit : fits_ssize count = true)
        (Habs : absent data old flag = true) :
  ireplace data old new count flag = Some data.
Proof.
  apply ireplace_unmatched; try assumption. now apply absent_unmatched.
Qed.

Lemma absent_term_unchanged_witness :
  is_template "x" = true /\ fits_ssize 0 = true /\
  absent "Bleach Season 02" "proper" false = true /\
  ireplace "Bleach Season 02" "proper" "x" 0 false
  = Some (list_ascii_of_string "Bleach Season 02").
Proof.
  split; [reflexivity |]. split; [reflexivity |]. split; [reflexivity |].
  apply (absent_term_unchanged "Bleach Season 02" "proper" "x" 0 false);
    reflexivity.
Defined.

(** X9.  A term longer than the text leaves the text as it is. *)
Theorem longer_term_unchanged
        (data old new : str) (count : Z) (flag : bool)
        (Hnew : is_template new = true) (Hfit : fits_ssize count = true)
        (Hlen : length data < length old) :
  ireplace data old new count flag = Some data.
Proof.
  apply ireplace_unmatched; try assumption.
  intros i Hi. destruct (matches_at data old flag i) eqn:Hm; [| reflexivity].
  apply matches_at_spells in Hm. destruct Hm as [Hm _]. lia.
Qed.

Lemma longer_term_unchanged_witness :
  is_template "x" = true /\ fits_ssize 0 = true /\
  length (list_ascii_of_string "se") < length (list_ascii_of_string "season") /\
  ireplace "se" "season" "x" 0 true = Some (list_ascii_of_string "se").
Proof.
  split; [reflexivity |]. split; [reflexivity |]. split; [simpl; lia |].
  apply (longer_term_unchanged "se" "season" "x" 0 true);
    [reflexivity | reflexivity | simpl; lia].
Defined.

Lemma remove_each_absent (words : list str) (text : str) (flag : bool) :
  forallb (fun w => absent text w flag) words = true ->
  remove_each text words flag = Some text.
Proof.
  induction words as [|w words IH]; intros H; cbn [remove_each]; [reflexivity |].
  cbn [forallb] in H. apply andb_true_iff in H. destruct H as [Hw H].
  rewrite ireplace_unmatched; try reflexivity.
  - cbn [bind]. now apply IH.
  - now apply absent_unmatched.
Qed.

(** X10.  When no word of the vocabulary occurs in the text,
    [remove_words] only canonicalizes the whitespace. *)
Theorem remove_words_absent
        (text : str) (words : list str) (flag : bool)
        (Habs : forallb (fun w => absent text w flag) words = true) :
  remove_words text words flag = Some (strip_spaces text).
Proof.
  unfold remove_words. now rewrite remove_each_absent.
Qed.

Lemma remove_words_absent_witness :
  forallb (fun w => absent " Bleach  Season 02 " w true) editions = true /\
  remove_words " Bleach  Season 02 " editions true
  = Some (list_ascii_of_string "Bleach Season 02").
Proof.
  split; [reflexivity |].
  rewrite (remove_words_absent " Bleach  Season 02 " editions true eq_refl).
  reflexivity.
Defined.

End Removal.

(** ** The empty term *)

Section EmptyTerm.

Import Re Occurrence TitleParser Shape.

(** A pattern that matches the empty string everywhere puts the
    replacement in front of the text and after each character. *)
Lemma sub_from_everywhere (p : Pattern) (tpl : list item) :
  (forall prev text, match_pattern p prev text = Some []) ->
  forall text n prev,
    fst (sub_from p tpl 0 n prev text 0) =
    expand tpl [] ++ flat_map (fun c => c :: expand tpl []) text.
Proof.
  intros Hp. induction text as [|c rest IH]; intros n prev; cbn [sub_from].
  - change (may_replace 0 n) with true. cbv iota. rewrite Hp.
    cbn [fst flat_map]. now rewrite app_nil_r.
  - change (may_replace 0 n) with true. cbv iota. rewrite Hp.
    specialize (IH (S n) (Some c)).
    destruct (sub_from p tpl 0 (S n) (Some c) rest 0) as [o n'].
    cbn [fst] in *. rewrite IH. reflexivity.
Qed.

(** X11.  The empty search term matches at every position: without
    boundaries and without a limit, [ireplace] puts the replacement in
    front of the text and after each of its characters. *)
Theorem ireplace_empty_term (data new : str)
        (Hnew : has_backslash new = false) :
  ireplace data "" new 0 false =
  Some (new ++ flat_map (fun c => c :: new) data).
Proof.
  destruct (ireplace_template data [] new 0 false (plain_is_template _ Hnew) eq_refl)
    as (p & tpl & Hp & Ht & E).
  change (list_ascii_of_string "") with (@nil ascii). rewrite E.
  rewrite compile_template_plain in Ht by assumption. injection Ht as <-.
  rewrite search_pattern_plain in Hp. injection Hp as <-.
  rewrite sub_from_everywhere by reflexivity.
  now rewrite expand_plain.
Qed.

Lemma ireplace_empty_term_witness :
  has_backslash "-" = false /\
  ireplace "abc" "" "-" 0 false = Some (list_ascii_of_string "-a-b-c-").
Proof.
  split; [reflexivity |].
  rewrite (ireplace_empty_term "abc" "-" eq_refl). reflexivity.
Defined.

(** Where every match is empty, removal copies the text. *)
Lemma sub_from_empty_matches (p : Pattern) (count : Z) :
  (forall prev text m, match_pattern p prev text = Some m -> m = []) ->
  forall text n prev, fst (sub_from p [] count n prev text 0) = text.
Proof.
  intros Hp. induction text as [|c rest IH]; intros n prev; cbn [sub_from].
  - destruct (may_replace count n); [| reflexivity].
    destruct (match_pattern p prev []); reflexivity.
  - destruct (may_replace count n); [| reflexivity].
    destruct (match_pattern p prev (c :: rest)) as [m|] eqn:Hm.
    + apply Hp in Hm. subst m.
      specialize (IH (S n) (Some c)).
      destruct (sub_from p [] count (S n) (Some c) rest 0). cbn [fst] in *.
      now rewrite IH.
    + specialize (IH n (Some c)).
      destruct (sub_from p [] count n (Some c) rest 0). cbn [fst] in *.
      now rewrite IH.
Qed.

Lemma ireplace_empty_word (text : str) (flag : bool) :
  ireplace text [] [] ireplace_count_default flag = Some text.
Proof.
  destruct (ireplace_template text [] [] ireplace_count_default flag eq_refl eq_refl)
    as (p & tpl & Hp & Ht & ->).
  injection Ht as <-. rewrite sub_from_empty_matches; [reflexivity |].
  intros prev t m Hm. unfold match_pattern in Hm.
  destruct flag.
  - rewrite search_pattern_bounded in Hp. injection Hp as <-.
    change (match_here true (bounded_nodes []) prev t = Some m) in Hm.
    apply match_bounded in Hm. destruct Hm as [-> _]. reflexivity.
  - rewrite search_pattern_plain in Hp. injection Hp as <-.
    change (match_here true (plain_nodes []) prev t = Some m) in Hm.
    apply match_plain in Hm. destruct Hm as [-> _]. reflexivity.
Qed.

Lemma remove_each_app (ws1 ws2 : list str) (flag : bool) :
  forall text,
    remove_each text (ws1 ++ ws2) flag =
    (t <- remove_each text ws1 flag ;; remove_each t ws2 flag).
Proof.
  induction ws1 as [|w ws1 IH]; intros text; cbn [app remove_each bind];
    [reflexivity |].
  destruct (ireplace text w "" ireplace_count_default flag); cbn [bind];
    [apply IH | reflexivity].
Qed.

(** X12.  An empty word in the vocabulary changes nothing: [remove_words]
    gives the same result with it as without it, wherever it stands in
    the list. *)
Theorem remove_words_empty_word (text : str) (ws1 ws2 : list str) (flag : bool) :
  remove_words text (ws1 ++ [] :: ws2) flag = remove_words text (ws1 ++ ws2) flag.
Proof.
  unfold remove_words. rewrite !remove_each_app.
  destruct (remove_each text ws1 flag) as [t|]; [| reflexivity].
  cbn [bind remove_each].
  change (list_ascii_of_string "") with (@nil ascii).
  now rewrite ireplace_empty_word.
Qed.

End EmptyTerm.

(** ** Letter case *)

Section LetterCase.

Import Re Occurrence TitleParser Shape.

Lemma isalnum_tolower (c : ascii) : isalnum (tolower c) = isalnum c.
Proof. destruct c as [[|] [|] [|] [|] [|] [|] [|] [|]]; reflexivity. Qed.

Lemma newline_tolower (c : ascii) :
  Ascii.eqb (tolower c) newline = Ascii.eqb c newline.
Proof. destruct c as [[|] [|] [|] [|] [|] [|] [|] [|]]; reflexivity. Qed.

Lemma isalnum_same_letter (a b : ascii) :
  tolower a = tolower b -> isalnum a = isalnum b.
Proof.
  intros H. rewrite <- (isalnum_tolower a), <- (isalnum_tolower b). now rewrite H.
Qed.

Lemma lift_cons (a b : ascii) (x y : option str) :
  tolower a = tolower b ->
  option_map (map tolower) x = option_map (map tolower) y ->
  option_map (map tolower) (option_map (cons a) x) =
  option_map (map tolower) (option_map (cons b) y).
Proof.
  intros Hab H. destruct x, y; simpl in *; try discriminate; [| reflexivity].
  injection H as H. now rewrite Hab, H.
Qed.

(** On texts with the same letters, and with neighbours of the same
    kind, a pattern matches the same stretch of letters. *)
Lemma match_here_letters (ns : list node) :
  forall prev1 prev2 t1 t2,
    free prev1 = free prev2 ->
    map tolower t1 = map tolower t2 ->
    option_map (map tolower) (match_here true ns prev1 t1) =
    option_map (map tolower) (match_here true ns prev2 t2).
Proof.
  induction ns as [|nd ns IH]; intros prev1 prev2 t1 t2 Hp Ht; [reflexivity |].
  destruct nd as [q| | |]; cbn [match_here].
  - destruct t1 as [|a t1], t2 as [|b t2]; try discriminate; [reflexivity |].
    simpl in Ht. injection Ht as Hab Ht.
    unfold char_matches. rewrite Hab.
    destruct (Ascii.eqb (tolower b) (tolower q)); [| reflexivity].
    apply lift_cons; [assumption |]. apply IH; [| assumption].
    simpl. f_equal. now apply isalnum_same_letter.
  - destruct t1 as [|a t1], t2 as [|b t2]; try discriminate; [reflexivity |].
    simpl in Ht. injection Ht as Hab Ht.
    rewrite <- (newline_tolower a), <- (newline_tolower b), Hab.
    destruct (Ascii.eqb (tolower b) newline); [reflexivity |].
    apply lift_cons; [assumption |]. apply IH; [| assumption].
    simpl. f_equal. now apply isalnum_same_letter.
  - pose proof Hp as Hp'.
    destruct prev1 as [a|], prev2 as [b|]; simpl in Hp'.
    + destruct (isalnum a), (isalnum b); try discriminate; [reflexivity |].
      now apply IH.
    + destruct (isalnum a); [discriminate |]. now apply IH.
    + destruct (isalnum b); [discriminate |]. now apply IH.
    + now apply IH.
  - destruct t1 as [|a t1], t2 as [|b t2]; try discriminate.
    + now apply IH.
    + pose proof Ht as Ht'. simpl in Ht'. injection Ht' as Hab _.
      rewrite (isalnum_same_letter a b Hab).
      destruct (isalnum b); [reflexivity |]. now apply IH.
Qed.

Lemma expand_letters (tpl : list item) (m1 m2 : str) :
  map tolower m1 = map tolower m2 ->
  map tolower (expand tpl m1) = map tolower (expand tpl m2).
Proof.
  intros H. unfold expand. induction tpl as [|it tpl IH]; [reflexivity |].
  cbn [flat_map]. rewrite !map_app, IH. destruct it; [reflexivity |].
  now rewrite H.
Qed.

Lemma sub_from_letters (p : Pattern) (tpl : list item) (count : Z) :
  ignorecase p = true ->
  forall t1 t2 n prev1 prev2 skip,
    free prev1 = free prev2 ->
    map tolower t1 = map tolower t2 ->
    map tolower (fst (sub_from p tpl count n prev1 t1 skip)) =
    map tolower (fst (sub_from p tpl count n prev2 t2 skip)).
Proof.
  intros Hi.
  assert (Hm : forall prev1 prev2 t1 t2,
             free prev1 = free prev2 ->
             map tolower t1 = map tolower t2 ->
             option_map (map tolower) (match_pattern p prev1 t1) =
             option_map (map tolower) (match_pattern p prev2 t2)).
  { intros. unfold match_pattern. rewrite Hi. now apply match_here_letters. }
  induction t1 as [|a t1 IH]; intros [|b t2] n prev1 prev2 skip Hp Ht;
    try discriminate.
  - destruct skip; cbn [sub_from]; [| reflexivity].
    destruct (may_replace count n); [| reflexivity].
    specialize (Hm prev1 prev2 [] [] Hp eq_refl).
    destruct (match_pattern p prev1 []) as [m1|],
             (match_pattern p prev2 []) as [m2|];
      simpl in Hm; try discriminate; [| reflexivity].
    injection Hm as Hm. cbn [fst]. now apply expand_letters.
  - pose proof Ht as Ht'. simpl in Ht'. injection Ht' as Hab Hrest.
    assert (Hside : free (Some a) = free (Some b))
      by (simpl; f_equal; now apply isalnum_same_letter).
    destruct skip as [|k]; cbn [sub_from]; [| now apply IH].
    destruct (may_replace count n); [| exact Ht].
    specialize (Hm prev1 prev2 (a :: t1) (b :: t2) Hp Ht).
    destruct (match_pattern p prev1 (a :: t1)) as [m1|],
             (match_pattern p prev2 (b :: t2)) as [m2|];
      simpl in Hm; try discriminate.
    + injection Hm as Hm.
      pose proof (expand_letters tpl m1 m2 Hm) as He.
      destruct m1 as [|x m1], m2 as [|y m2]; try discriminate.
      * specialize (IH t2 (S n) (Some a) (Some b) 0 Hside Hrest).
        destruct (sub_from p tpl count (S n) (Some a) t1 0),
                 (sub_from p tpl count (S n) (Some b) t2 0).
        cbn [fst] in *. rewrite !map_app. cbn [map]. now rewrite Hab, IH.
      * assert (Hl : length m1 = length m2).
        { simpl in Hm. injection Hm as _ Hm.
          rewrite <- (length_map tolower m1), <- (length_map tolower m2).
          now rewrite Hm. }
        rewrite Hl.
        specialize (IH t2 (S n) (Some a) (Some b) (length m2) Hside Hrest).
        destruct (sub_from p tpl count (S n) (Some a) t1 (length m2)),
                 (sub_from p tpl count (S n) (Some b) t2 (length m2)).
        cbn [fst] in *. rewrite !map_app. now rewrite He, IH.
    + specialize (IH t2 n (Some a) (Some b) 0 Hside Hrest).
      destruct (sub_from p tpl count n (Some a) t1 0),
               (sub_from p tpl count n (Some b) t2 0).
      cbn [fst] in *. cbn [map]. now rewrite Hab, IH.
Qed.

(** X13.  The replace is case-insensitive in the text as well: two
    texts with the same letters give results with the same letters (and
    raise together). *)
Theorem ireplace_text_casing
        (data1 data2 old new : str) (count : Z) (flag : bool)
        (H : same_letters data1 data2) :
  option_map (map tolower) (ireplace data1 old new count flag) =
  option_map (map tolower) (ireplace data2 old new count flag).
Proof.
  rewrite !ireplace_search.
  destruct (search_pattern old flag) as [p|] eqn:Hp; [| reflexivity].
  cbn [bind]. unfold sub, subn.
  destruct (fits_ssize count); [| reflexivity].
  destruct (compile_template new) as [tpl|]; [| reflexivity].
  cbn [bind option_map]. f_equal.
  apply sub_from_letters; [| reflexivity | exact H].
  destruct flag;
    [rewrite search_pattern_bounded in Hp | rewrite search_pattern_plain in Hp];
    injection Hp as <-; reflexivity.
Qed.

Lemma ireplace_text_casing_witness :
  same_letters "Show.PROPER.720p" "SHOW.proper.720P" /\
  option_map (map tolower) (ireplace "Show.PROPER.720p" "Proper" "" 0 true) =
  option_map (map tolower) (ireplace "SHOW.proper.720P" "Proper" "" 0 true).
Proof.
  split; [reflexivity |].
  apply (ireplace_text_casing "Show.PROPER.720p" "SHOW.proper.720P" "Proper" "" 0 true).
  reflexivity.
Defined.

Lemma ireplace_term_casing (old1 old2 : str) (flag : bool) :
  same_letters old1 old2 ->
  forall text repl c,
    ireplace text old1 repl c flag = ireplace text old2 repl c flag.
Proof.
  intros Hs text repl c. rewrite !ireplace_search.
  destruct (search_pattern_total old1 flag) as [p1 H1].
  destruct (search_pattern_total old2 flag) as [p2 H2].
  rewrite H1, H2. cbn [bind]. unfold sub, subn.
  destruct (fits_ssize c); [| reflexivity].
  destruct (compile_template repl) as [tpl|]; [| reflexivity].
  cbn [bind option_map fst]. do 2 f_equal.
  apply sub_from_ext. eapply match_pattern_casing; eassumption.
Qed.

(** X14.  The letter case of a whole vocabulary does not matter: two
    vocabularies whose words have the same letters, word by word, give
    the same result in [remove_words]. *)
Theorem remove_words_vocabulary_casing
        (text : str) (ws1 ws2 : list str) (flag : bool)
        (H : same_vocabulary ws1 ws2) :
  remove_words text ws1 flag = remove_words text ws2 flag.
Proof.
  unfold remove_words. f_equal. revert text.
  induction H as [|w1 w2 ws1 ws2 Hw Hws IH]; intros text; [reflexivity |].
  cbn [remove_each]. rewrite (ireplace_term_casing w1 w2 flag Hw).
  destruct (ireplace text w2 "" ireplace_count_default flag); cbn [bind];
    [apply IH | reflexivity].
Qed.

Lemma remove_words_vocabulary_casing_witness :
  same_vocabulary (strs ["XViD"; "H.264"]) (strs ["xvid"; "h.264"]) /\
  remove_words "Movie XviD h.264 1999" (strs ["XViD"; "H.264"]) true
  = remove_words "Movie XviD h.264 1999" (strs ["xvid"; "h.264"]) true.
Proof.
  split; [repeat constructor |].
  apply (remove_words_vocabulary_casing "Movie XviD h.264 1999").
  repeat constructor.
Defined.

(** X15.  The cutoff words are all lower-case, as the class asks of
    them, and every special and every edition word is a cutoff word. *)
Theorem cutoffs_lowercase_and_complete :
  forallb is_lowercase cutoffs = true /\
  (forall w, In w specials \/ In w editions -> In w cutoffs).
Proof.
  split; [reflexivity |].
  intros w H. unfold cutoffs. apply in_or_app. right.
  apply in_or_app. tauto.
Qed.

End LetterCase.

(** ** When the boundary flag makes no difference *)

Section Standalone.

Import Re Occurrence TitleParser Shape.

(** Two patterns that match alike at every position of a text give the
    same substitution on it. *)
Lemma sub_from_agree (p1 p2 : Pattern) (tpl : list item) (count : Z) :
  forall text n prev skip,
    (forall j, j <= length text ->
               match_pattern p1 (before prev text j) (skipn j text) =
               match_pattern p2 (before prev text j) (skipn j text)) ->
    sub_from p1 tpl count n prev text skip = sub_from p2 tpl count n prev text skip.
Proof.
  induction text as [|c rest IH]; intros n prev skip H.
  - destruct skip; cbn [sub_from]; [| reflexivity].
    specialize (H 0 (Nat.le_refl _)). cbn [before skipn] in H. now rewrite H.
  - assert (Hrest : forall j, j <= length rest ->
                      match_pattern p1 (before (Some c) rest j) (skipn j rest) =
                      match_pattern p2 (before (Some c) rest j) (skipn j rest)).
    { intros j Hj. specialize (H (S j)). cbn [skipn] in H.
      destruct j; apply H; simpl; lia. }
    destruct skip as [|k]; cbn [sub_from]; [| now apply IH].
    specialize (H 0 (Nat.le_0_l _)). cbn [before skipn] in H. rewrite H.
    destruct (may_replace count n); [| reflexivity].
    destruct (match_pattern p2 prev (c :: rest)) as [[|a m]|];
      now rewrite IH.
Qed.

(** X16.  When every occurrence of the term stands alone in the text,
    the boundary flag makes no difference to [ireplace]. *)
Theorem standalone_flag_irrelevant
        (data old new : str) (count : Z)
        (H : standalone data old = true) :
  ireplace data old new count true = ireplace data old new count false.
Proof.
  rewrite !ireplace_search, search_pattern_bounded, search_pattern_plain.
  cbn [bind]. unfold sub, subn.
  destruct (fits_ssize count); [| reflexivity].
  destruct (compile_template new) as [tpl|]; [| reflexivity].
  cbn [bind option_map]. do 2 f_equal.
  apply sub_from_agree. intros j Hj.
  change (before None data j) with (char_before data j).
  unfold match_pattern. cbn [nodes ignorecase].
  unfold standalone, positions in H. rewrite forallb_forall in H.
  assert (Hin : In j (seq 0 (S (length data)))) by (apply in_seq; lia).
  specialize (H j Hin).
  unfold matches_at in H.
  rewrite search_pattern_bounded, search_pattern_plain in H.
  unfold match_at, match_pattern in H. cbn [nodes ignorecase] in H.
  apply Nat.leb_le in Hj. rewrite Hj in H.
  destruct (match_here true (plain_nodes old) (char_before data j) (skipn j data))
    as [m|] eqn:Hplain.
  - destruct (match_here true (bounded_nodes old) (char_before data j) (skipn j data))
      as [m'|] eqn:Hbounded; [| discriminate].
    apply match_plain in Hplain. apply match_bounded in Hbounded.
    destruct Hplain as [-> _]. destruct Hbounded as [-> _]. reflexivity.
  - destruct (match_here true (bounded_nodes old) (char_before data j) (skipn j data))
      as [m'|] eqn:Hbounded; [| reflexivity].
    apply match_bounded in Hbounded.
    destruct Hbounded as (-> & Hl & Hs & _).
    assert (E : match_here true (plain_nodes old) (char_before data j) (skipn j data)
                = Some (firstn (length old) (skipn j data)))
      by (apply match_plain; auto).
    congruence.
Qed.

Lemma standalone_flag_irrelevant_witness :
  standalone "Show.Name.PROPER.720p" "proper" = true /\
  ireplace "Show.Name.PROPER.720p" "proper" "" 0 true
  = ireplace "Show.Name.PROPER.720p" "proper" "" 0 false.
Proof.
  split; [reflexivity |].
  apply (standalone_flag_irrelevant "Show.Name.PROPER.720p" "proper" "" 0).
  reflexivity.
Defined.

End Standalone.
